(** * obsidian-task-scheduler: the scheduling core of [Scheduler.ts]

    A shallow embedding of [src/services/Scheduler.ts] (grid generation,
    ranking, consecutive-slot search, two-pass placement) and of the two
    deadline predicates of [models/Task.ts], with the properties the
    specification states about them.

    Conventions of the embedding.
    - A JavaScript [Date] is an integer number of milliseconds.  The
      scheduler reaches the time zone of the host through the local getters
      and setters of [generateTimeSlots] ([setHours], [setMinutes],
      [setDate], [getDay]) and of [Task.isDueSoon] ([setHours]) only.
      [JsDate] has these operations on local time values, where they are
      integer arithmetic; [generateTimeSlots] and [isDueSoon] over [JsDate]
      are the two functions in local wall-clock milliseconds, as they run
      while the offset of local time from UTC stays the same.  [Zoned] has
      the same two functions over instants, with the time zone of the host
      between instants and local times, as ECMAScript defines the setters;
      [generateTimeSlots_steady] shows that over a horizon without change
      of offset the two grids are the same up to the offset.  The finder,
      the ranker and the placement compare and subtract [getTime()] values
      only.
    - The numbers of the code are floating point numbers; the embedding has
      integers, which they are for every whole number below 2^53.
    - [number] fields (priority, minutes, weekday numbers, the horizon) are
      integers of [Z].
    - The ['HH:MM'] settings strings are kept as the pair of numbers that
      [split(':').map(Number)] makes of them.
    - Objects that the code mutates are addressed by position: a task is
      named by its index in the ranked array, a slot by its index in the
      generated grid.  An array of slot objects (the deadline-filtered view,
      the result of the finder) is a list of slot references, each paired
      with the object it points to.  The task array holds pairwise distinct
      objects, as [collectTasks] builds them.
    - A JavaScript exception is the [Error] result. *)

From Stdlib Require Import ZArith List Bool Lia Arith Sorted Permutation.
From Stdlib Require Ascii String.
Import ListNotations.
Import String.StringSyntax Ascii.AsciiSyntax.
Open Scope Z_scope.
Delimit Scope string_scope with string.
Delimit Scope char_scope with char.

(** ** Results of code that can throw *)

Inductive Exn : Type :=
| TypeError.

Inductive Result (A : Type) : Type :=
| Ok (a : A)
| Error (e : Exn).
Arguments Ok {A} a.
Arguments Error {A} e.

Definition bind {A B : Type} (r : Result A) (k : A -> Result B) : Result B :=
  match r with
  | Ok a => k a
  | Error e => Error e
  end.

Notation "x <- r ;; k" := (bind r (fun x => k))
  (at level 61, r at next level, right associativity).

(** ** Dates *)

(** The operations of [Date] on a local time value: the milliseconds of a
    wall-clock reading since the wall-clock reading 1970-01-01 00:00. *)
Module JsDate.

Definition msPerMinute : Z := 60000.
Definition msPerHour : Z := 3600000.
Definition msPerDay : Z := 86400000.

(** [Day(t) * msPerDay]: the midnight that begins the day of [t]. *)
Definition startOfDay (t : Z) : Z := (t / msPerDay) * msPerDay.

(** [d.setHours(h, m, 0, 0)] *)
Definition setHours (d h m : Z) : Z :=
  startOfDay d + h * msPerHour + m * msPerMinute.

(** [d.setMinutes(d.getMinutes() + k)] *)
Definition addMinutes (d k : Z) : Z := d + k * msPerMinute.

(** [d.setDate(d.getDate() + k)] *)
Definition addDays (d k : Z) : Z := d + k * msPerDay.

(** [d.getDay()]: 0 is Sunday; day 0 of the epoch is a Thursday. *)
Definition getDay (d : Z) : Z := (d / msPerDay + 4) mod 7.

End JsDate.

(** ** Data model *)

Definition TaskRef := nat.
Definition SlotAddr := nat.

(** [TaskMetadata], the fields the scheduler reads or writes. *)
Record Task : Type := mkTask {
  priority : Z;
  timeEstimate : Z;
  deadline : option Z;
  scheduledTime : option Z
}.

Record TimeSlot : Type := mkSlot {
  startTime : Z;
  endTime : Z;
  task : option TaskRef
}.

(** A reference to a slot object, together with the object. *)
Definition SlotRef : Type := (SlotAddr * TimeSlot)%type.
Definition addr (r : SlotRef) : SlotAddr := fst r.
Definition slotOf (r : SlotRef) : TimeSlot := snd r.

Record SchedulerSettings : Type := mkSettings {
  workingHoursStart : Z * Z;
  workingHoursEnd : Z * Z;
  workingDays : list Z
}.

(** ** generateTimeSlots *)

Definition slotDuration : Z := 30.

(** [workingDays.includes(x)] *)
Definition includes (l : list Z) (x : Z) : bool := existsb (Z.eqb x) l.

(** The [while (slotStart < dayEnd)] loop.  Each turn moves [slotStart]
    forward by one slot, [fuel] bounds the number of turns. *)
Fixpoint slotLoop (fuel : nat) (slotStart dayEnd : Z) : list TimeSlot :=
  match fuel with
  | O => []
  | S fuel' =>
      if slotStart <? dayEnd then
        let slotEnd := JsDate.addMinutes slotStart slotDuration in
        (if slotEnd <=? dayEnd then [mkSlot slotStart slotEnd None] else [])
          ++ slotLoop fuel' slotEnd dayEnd
      else []
  end.

(** Turns after which the loop has left [dayEnd] behind. *)
Definition slotLoopFuel (slotStart dayEnd : Z) : nat :=
  S (Z.to_nat ((dayEnd - slotStart) / (slotDuration * JsDate.msPerMinute))).

(** The body of the [for] loop over days, at [currentDate]. *)
Definition daySlots (settings : SchedulerSettings) (currentDate : Z)
  : list TimeSlot :=
  if includes (workingDays settings) (JsDate.getDay currentDate) then
    let '(startHour, startMinute) := workingHoursStart settings in
    let '(endHour, endMinute) := workingHoursEnd settings in
    let dayStart := JsDate.setHours currentDate startHour startMinute in
    let dayEnd := JsDate.setHours currentDate endHour endMinute in
    slotLoop (slotLoopFuel dayStart dayEnd) dayStart dayEnd
  else [].

Fixpoint dayLoop (settings : SchedulerSettings) (days : nat) (currentDate : Z)
  : list TimeSlot :=
  match days with
  | O => []
  | S days' =>
      daySlots settings currentDate
        ++ dayLoop settings days' (JsDate.addDays currentDate 1)
  end.

Definition generateTimeSlots (settings : SchedulerSettings)
  (startDate : Z) (daysToSchedule : Z) : list TimeSlot :=
  let currentDate := JsDate.setHours startDate 0 0 in
  dayLoop settings (Z.to_nat daysToSchedule) currentDate.

(** ** sortTasksByPriority *)

Definition urgentThreshold : Z := 48 * 60 * 60 * 1000.

(** [t.metadata.deadline && t.metadata.deadline.getTime() - now.getTime()
    < urgentThreshold], as a truth value. *)
Definition isUrgent (now : Z) (t : Task) : bool :=
  match deadline t with
  | Some d => d - now <? urgentThreshold
  | None => false
  end.

(** The comparator handed to [sort], with the clock reading [now] it takes
    at its first line. *)
Definition compareTasks (now : Z) (a b : Task) : Z :=
  let aIsUrgent := isUrgent now a in
  let bIsUrgent := isUrgent now b in
  if aIsUrgent && negb bIsUrgent then -1
  else if negb aIsUrgent && bIsUrgent then 1
  else if negb (priority a =? priority b) then priority a - priority b
  else
    match deadline a, deadline b with
    | Some da, Some db => da - db
    | Some _, None => -1
    | None, Some _ => 1
    | None, None => timeEstimate a - timeEstimate b
    end.

(** [Array.prototype.sort] is a stable sort: with a consistent comparator
    its result is the one ordered arrangement that keeps tied elements in
    their original order.  Insertion from the right computes it. *)
Fixpoint insertSorted {A : Type} (cmp : A -> A -> Z) (x : A) (l : list A)
  : list A :=
  match l with
  | [] => [x]
  | y :: l' => if cmp x y <=? 0 then x :: l else y :: insertSorted cmp x l'
  end.

Definition arraySort {A : Type} (cmp : A -> A -> Z) (l : list A) : list A :=
  fold_right (insertSorted cmp) [] l.

Definition sortTasksByPriority (now : Z) (tasks : list Task) : list Task :=
  arraySort (compareTasks now) tasks.

(** ** Task.isDueSoon *)

(** On local time values: [twoDaysFromNow] is 48 hours after [now].
    [Zoned.isDueSoon] has the time zone of the host. *)
Definition isDueSoon (now : Z) (t : Task) : bool :=
  match deadline t with
  | None => false
  | Some d =>
      let twoDaysFromNow := now + 48 * JsDate.msPerHour in
      (now <? d) && (d <=? twoDaysFromNow)
  end.

(** ** findConsecutiveSlots *)

(** [slot.task] as a condition; [slot.task === undefined] is its negation. *)
Definition isAssigned (s : TimeSlot) : bool :=
  match task s with
  | Some _ => true
  | None => false
  end.

(** [arr.slice(0, n)]: a negative [n] counts from the end. *)
Definition slice0 {A : Type} (l : list A) (n : Z) : list A :=
  if n <? 0 then firstn (Z.to_nat (Z.of_nat (length l) + n)) l
  else firstn (Z.to_nat n) l.

(** The [for] loop of the finder over the slots not yet visited, with its
    two loop variables. *)
Fixpoint findLoop (slots : list SlotRef) (consecutiveSlots : list SlotRef)
  (lastSlotTime : option Z) (slotsNeeded : Z) : list SlotRef :=
  match slots with
  | [] => []
  | slot :: rest =>
      if isAssigned (slotOf slot) then
        findLoop rest consecutiveSlots lastSlotTime slotsNeeded
      else
        let kept :=
          match lastSlotTime with
          | Some last =>
              if negb (startTime (slotOf slot) =? last) then []
              else consecutiveSlots
          | None => consecutiveSlots
          end in
        let consecutiveSlots' := kept ++ [slot] in
        if Z.of_nat (length consecutiveSlots') >=? slotsNeeded then
          slice0 consecutiveSlots' slotsNeeded
        else
          findLoop rest consecutiveSlots' (Some (endTime (slotOf slot)))
            slotsNeeded
  end.

Definition findConsecutiveSlots (slots : list SlotRef) (slotsNeeded : Z)
  : list SlotRef :=
  findLoop slots [] None slotsNeeded.

(** ** Placement *)

(** The state of one scheduling run: the ranked task objects and the slot
    objects of the grid. *)
Record RunState : Type := mkRun {
  sortedTasks : list Task;
  availableSlots : list TimeSlot
}.

Fixpoint updateAt {A : Type} (f : A -> A) (i : nat) (l : list A) : list A :=
  match l, i with
  | [], _ => []
  | x :: l', O => f x :: l'
  | x :: l', S i' => x :: updateAt f i' l'
  end.

Definition setTask (t : TaskRef) (s : TimeSlot) : TimeSlot :=
  mkSlot (startTime s) (endTime s) (Some t).

Definition setScheduledTime (time : Z) (tk : Task) : Task :=
  mkTask (priority tk) (timeEstimate tk) (deadline tk) (Some time).

(** The references to the objects of a slot array, in array order. *)
Definition refsOf (heap : list TimeSlot) : list SlotRef :=
  combine (seq 0 (length heap)) heap.

(** [for (const slot of slots) slot.task = task] *)
Definition markSlots (t : TaskRef) (slots : list SlotRef)
  (heap : list TimeSlot) : list TimeSlot :=
  fold_left (fun h slot => updateAt (setTask t) (addr slot) h) slots heap.

(** [Math.ceil(a / b)] for integers [a] and a positive [b]. *)
Definition ceilDiv (a b : Z) : Z := - ((- a) / b).

Definition assignTaskToSlots (t : TaskRef) (slots : list SlotRef)
  (st : RunState) : Result RunState :=
  let heap := markSlots t slots (availableSlots st) in
  match slots with
  | [] => Error TypeError  (* slots[0] is undefined *)
  | first :: _ =>
      Ok (mkRun
            (updateAt (setScheduledTime (startTime (slotOf first))) t
               (sortedTasks st))
            heap)
  end.

Definition scheduleTaskWithDeadline (t : TaskRef) (st : RunState)
  : Result (bool * RunState) :=
  match nth_error (sortedTasks st) t with
  | None => Error TypeError
  | Some tk =>
      match deadline tk with
      | None => Ok (false, st)
      | Some d =>
          let deadlineSlots :=
            filter (fun slot => negb (isAssigned (slotOf slot))
                                && (endTime (slotOf slot) <=? d))
                   (refsOf (availableSlots st)) in
          if (length deadlineSlots =? 0)%nat then Ok (false, st)
          else
            let slotsNeeded := ceilDiv (timeEstimate tk) 30 in
            let consecutiveSlots :=
              findConsecutiveSlots deadlineSlots slotsNeeded in
            if Z.of_nat (length consecutiveSlots) >=? slotsNeeded then
              st' <- assignTaskToSlots t consecutiveSlots st ;;
              Ok (true, st')
            else Ok (false, st)
      end
  end.

Definition scheduleTaskAnywhere (t : TaskRef) (st : RunState)
  : Result (bool * RunState) :=
  match nth_error (sortedTasks st) t with
  | None => Error TypeError
  | Some tk =>
      let slotsNeeded := ceilDiv (timeEstimate tk) 30 in
      let consecutiveSlots :=
        findConsecutiveSlots (refsOf (availableSlots st)) slotsNeeded in
      if Z.of_nat (length consecutiveSlots) >=? slotsNeeded then
        st' <- assignTaskToSlots t consecutiveSlots st ;;
        Ok (true, st')
      else Ok (false, st)
  end.

(** One turn of one of the two loops of [scheduleTasks], at the task [t]. *)
Inductive PlacementStep : Type :=
| FirstPass (t : TaskRef)
| SecondPass (t : TaskRef).

Definition runStep (s : PlacementStep) (st : RunState) : Result RunState :=
  match s with
  | FirstPass t =>
      match nth_error (sortedTasks st) t with
      | None => Error TypeError
      | Some tk =>
          match deadline tk with
          | Some _ => r <- scheduleTaskWithDeadline t st ;; Ok (snd r)
          | None => Ok st
          end
      end
  | SecondPass t =>
      match nth_error (sortedTasks st) t with
      | None => Error TypeError
      | Some tk =>
          match scheduledTime tk with
          | None => r <- scheduleTaskAnywhere t st ;; Ok (snd r)
          | Some _ => Ok st
          end
      end
  end.

Fixpoint runSteps (steps : list PlacementStep) (st : RunState)
  : Result RunState :=
  match steps with
  | [] => Ok st
  | s :: steps' => st' <- runStep s st ;; runSteps steps' st'
  end.

(** The turns of the two [for ... of sortedTasks] loops, in order. *)
Definition placementSteps (n : nat) : list PlacementStep :=
  map FirstPass (seq 0 n) ++ map SecondPass (seq 0 n).

(** The state in which the two passes start. *)
Definition initialRun (settings : SchedulerSettings) (now : Z)
  (tasks : list Task) (startDate daysToSchedule : Z) : RunState :=
  mkRun (sortTasksByPriority now tasks)
        (generateTimeSlots settings startDate daysToSchedule).

(** [scheduleTasks], with the slot array it drops on return. *)
Definition scheduleTasksRun (settings : SchedulerSettings) (now : Z)
  (tasks : list Task) (startDate daysToSchedule : Z) : Result RunState :=
  let st := initialRun settings now tasks startDate daysToSchedule in
  runSteps (placementSteps (length (sortedTasks st))) st.

Definition scheduleTasks (settings : SchedulerSettings) (now : Z)
  (tasks : list Task) (startDate daysToSchedule : Z) : Result (list Task) :=
  st <- scheduleTasksRun settings now tasks startDate daysToSchedule ;;
  Ok (sortedTasks st).

(** ** Task.isOverdue *)

Definition isOverdue (now : Z) (t : Task) : bool :=
  match deadline t with
  | None => false
  | Some d => d <? now
  end.

(** ** SchedulerView: the order of the task list *)

(** The comparator of [renderTaskList]. *)
Definition compareByScheduledTime (a b : Task) : Z :=
  match scheduledTime a, scheduledTime b with
  | Some ta, Some tb => ta - tb
  | _, _ => 0
  end.

(** [[...this.scheduledTasks].sort(compare)]: the ordered arrangement,
    which the sort returns whenever the comparator is an ordering of the
    list, as it is when every task has a scheduled time.  With a task
    without scheduled time in the list the comparator is no ordering, and
    the result of the sort is up to the engine. *)
Definition taskListOrder (scheduledTasks : list Task) : list Task :=
  arraySort compareByScheduledTime scheduledTasks.

(** ** The settings tab: working days *)

(** [l.splice(l.indexOf(x), 1)] when [x] is in [l]. *)
Fixpoint removeFirst (x : Z) (l : list Z) : list Z :=
  match l with
  | [] => []
  | y :: l' => if y =? x then l' else y :: removeFirst x l'
  end.

(** The [change] listener of the checkbox of the weekday [index], with the
    state [checked] the checkbox has come to: what [workingDays] becomes. *)
Definition onWorkingDayChange (checked : bool) (index : Z)
  (workingDays : list Z) : list Z :=
  let workingDays' :=
    if checked && negb (includes workingDays index) then
      workingDays ++ [index]
    else if negb checked && includes workingDays index then
      removeFirst index workingDays
    else workingDays in
  arraySort (fun a b => a - b) workingDays'.


(** ** Task.ts: the task with its other fields *)

(** [Task], with [metadata] split into the fields of placement and the
    others.  The random [id], [source], [lineNumber] and [lastModified] are
    left out: nothing below reads them. *)
Record TaskItem : Type := mkItem {
  description : String.string;
  metadata : Task;
  completed : bool;
  category : option String.string;
  recurrence : option String.string;
  tags : list String.string
}.

(** *** The time tag of a task line *)

Inductive TimeUnit : Type :=
| Minutes
| Hours.

(** The number and the unit that [toLine] writes after [#time/].  For a
    whole [timeEstimate] from 0 to 2^53 the floating point quotient,
    rounded down, is the quotient of the integers: it lies below 2^48,
    where neighbouring floating point numbers are 1/32 apart at most, and
    the exact quotient is a whole number or at least 1/60 away from one. *)
Definition timeTag (timeEstimate : Z) : Z * TimeUnit :=
  if timeEstimate >=? 60 then (timeEstimate / 60, Hours)
  else (timeEstimate, Minutes).

(** The time estimate that [fromLine] makes of the number and the unit its
    pattern has captured after [#time/]. *)
Definition timeOfTag (tag : Z * TimeUnit) : Z :=
  let '(value, unit) := tag in
  match unit with
  | Hours => value * 60
  | Minutes => value
  end.

(** *** Task.createRecurringInstance *)

Section Calendar.

(** [d.setMonth(d.getMonth() + 1)] and [d.setFullYear(d.getFullYear() + 1)]
    of the JavaScript calendar. *)
Variables nextMonth nextYear : Z -> Z.

Definition createRecurringInstance (t : TaskItem) : option TaskItem :=
  match recurrence t, deadline (metadata t) with
  | Some pattern, Some d =>
      let newDeadline :=
        if String.eqb pattern "daily" then Some (JsDate.addDays d 1)
        else if String.eqb pattern "weekly" then Some (JsDate.addDays d 7)
        else if String.eqb pattern "monthly" then Some (nextMonth d)
        else if String.eqb pattern "yearly" then Some (nextYear d)
        else None in
      match newDeadline with
      | Some d' =>
          Some (mkItem (description t)
                  (mkTask (priority (metadata t)) (timeEstimate (metadata t))
                     (Some d') None)
                  false (category t) (recurrence t) (tags t))
      | None => None
      end
  | _, _ => None
  end.

(** The instance of the instance, and so on: [n] times. *)
Fixpoint nthInstance (n : nat) (t : TaskItem) : option TaskItem :=
  match n with
  | O => Some t
  | S n' =>
      match createRecurringInstance t with
      | Some t' => nthInstance n' t'
      | None => None
      end
  end.

End Calendar.

(** ** Scheduler.getScheduleStatistics *)

Record ScheduleStatistics : Type := mkStatistics {
  totalTasks : nat;
  scheduledTasks : nat;
  completedTasks : nat;
  upcomingDeadlines : nat;
  overdueTasks : nat
}.

(** The statistics of the tasks [allTasks] that [collectTasks] has
    returned, at the clock reading [now]. *)
Definition getScheduleStatistics (now : Z) (allTasks : list TaskItem)
  : ScheduleStatistics :=
  let scheduled :=
    filter (fun t => match scheduledTime (metadata t) with
                     | Some _ => true
                     | None => false
                     end) allTasks in
  let upcomingDeadlineThreshold := JsDate.addDays now 3 in
  let upcoming :=
    filter (fun t => match deadline (metadata t) with
                     | Some d => (now <? d)
                                 && (d <=? upcomingDeadlineThreshold)
                     | None => false
                     end) allTasks in
  let overdue :=
    filter (fun t => match deadline (metadata t) with
                     | Some d => (d <? now) && negb (completed t)
                     | None => false
                     end) allTasks in
  mkStatistics (length allTasks) (length scheduled)
    (length (filter completed allTasks)) (length upcoming) (length overdue).

(** ** Lines of a file *)

(** The line feed. *)
Definition newline : Ascii.ascii := "010"%char.

(** [s.split(sep)] for a separator of one character. *)
Fixpoint splitOn (sep : Ascii.ascii) (s : String.string)
  : list String.string :=
  match s with
  | String.EmptyString => [String.EmptyString]
  | String.String c rest =>
      if Ascii.eqb c sep then String.EmptyString :: splitOn sep rest
      else
        match splitOn sep rest with
        | [] => [String.String c String.EmptyString]
        | part :: parts => String.String c part :: parts
        end
  end.

(** [content.split('\n')] *)
Definition splitLines (content : String.string) : list String.string :=
  splitOn newline content.

(** [lines.join('\n')] *)
Fixpoint joinLines (lines : list String.string) : String.string :=
  match lines with
  | [] => String.EmptyString
  | line :: rest =>
      match rest with
      | [] => line
      | _ => String.append line (String.String newline (joinLines rest))
      end
  end.

(** [lines[n] = line] on an array of strings, as [join] will see it: within
    the array the element is replaced; beyond its end the array grows, the
    holes in between joining as empty strings; a negative [n] names no
    element. *)
Definition assignLine (lines : list String.string) (n : Z)
  (line : String.string) : list String.string :=
  if n <? 0 then lines
  else if n <? Z.of_nat (length lines) then
    updateAt (fun _ => line) (Z.to_nat n) lines
  else
    lines ++ repeat String.EmptyString (Z.to_nat n - length lines) ++ [line].

(** [Scheduler.updateTaskInFile], the standalone branch, on the content of
    the source file and the line [task.toLine()]: the content it writes, or
    [None] when it returns false without writing. *)
Definition updateTaskInFile (content : String.string) (lineNumber : Z)
  (line : String.string) : option String.string :=
  let lines := splitLines content in
  if lineNumber <? Z.of_nat (length lines) then
    Some (joinLines (assignLine lines lineNumber line))
  else None.

(** [TasksPluginIntegration.updateTask], once the task is found in the
    cache: the content it writes. *)
Definition updateTask (content : String.string) (lineNumber : Z)
  (line : String.string) : String.string :=
  joinLines (assignLine (splitLines content) lineNumber line).

(** [TasksPluginIntegration.createTask], once the target file is chosen: the
    content it writes and the line number it gives the task. *)
Definition createTask (content : String.string) (line : String.string)
  : String.string * Z :=
  let lines := splitLines content ++ [line] in
  (joinLines lines, Z.of_nat (length lines) - 1).

(** ** The settings tab: working hours *)

(** The character lies between [lo] and [hi]. *)
Definition charIn (lo hi c : Ascii.ascii) : bool :=
  (Ascii.nat_of_ascii lo <=? Ascii.nat_of_ascii c)%nat
  && (Ascii.nat_of_ascii c <=? Ascii.nat_of_ascii hi)%nat.

Definition isDigit (c : Ascii.ascii) : bool := charIn "0"%char "9"%char c.

Definition digitOf (c : Ascii.ascii) : Z :=
  Z.of_nat (Ascii.nat_of_ascii c) - 48.

(** [/^([0-1]?[0-9]|2[0-3]):[0-5][0-9]$/.test(value)], the check of both
    working-hours fields: an hour of one digit, or of two digits from 00 to
    19 or from 20 to 23, a colon, and two digits from 00 to 59. *)
Definition acceptsTime (value : String.string) : bool :=
  match value with
  | String.String h
      (String.String c
         (String.String m1 (String.String m2 String.EmptyString))) =>
      isDigit h && Ascii.eqb c ":"%char && charIn "0"%char "5"%char m1 && isDigit m2
  | String.String h1
      (String.String h2
         (String.String c
            (String.String m1 (String.String m2 String.EmptyString)))) =>
      ((charIn "0"%char "1"%char h1 && isDigit h2)
       || (Ascii.eqb h1 "2"%char && charIn "0"%char "3"%char h2))
      && Ascii.eqb c ":"%char && charIn "0"%char "5"%char m1 && isDigit m2
  | _ => false
  end.

Fixpoint digitsValue (acc : Z) (s : String.string) : option Z :=
  match s with
  | String.EmptyString => Some acc
  | String.String c rest =>
      if isDigit c then digitsValue (acc * 10 + digitOf c) rest else None
  end.

(** [Number(s)] for a string of decimal digits; [None] for every other
    string, which this embedding does not convert. *)
Definition numberOf (s : String.string) : option Z :=
  match s with
  | String.EmptyString => None
  | _ => digitsValue 0 s
  end.

(** [const [hour, minute] = value.split(':').map(Number)], as
    [generateTimeSlots] reads a working-hours setting. *)
Definition workingHoursOf (value : String.string) : option (Z * Z) :=
  match map numberOf (splitOn ":"%char value) with
  | Some hour :: Some minute :: _ => Some (hour, minute)
  | _ => None
  end.

(** ** The host's time zone *)

(** The sections above read a [Date] as the milliseconds of its local
    wall-clock time, which is what the getters and setters of the code
    work on when the offset of local time from UTC stays the same.  This
    module reads a [Date] as ECMAScript does: its time value is an instant,
    in milliseconds of UTC, and every local getter and setter goes through
    the time zone of the host.  [generateTimeSlots] and [isDueSoon] are the
    two functions of the scheduler that use local setters; they are given
    here once more, with the zone. *)
Module Zoned.

(** The time zone of the host, as ECMAScript consults it:
    [offsetAt t] is [LocalTZA(t, true)], the offset of local time from UTC
    at the instant [t]; [offsetOfLocal l] is [LocalTZA(l, false)], the
    offset with which the local time value [l] is read back as an instant
    (at a local time that a change of offset skips or repeats it is the
    offset from before the change). *)
Record TimeZone : Type := mkZone {
  offsetAt : Z -> Z;
  offsetOfLocal : Z -> Z
}.

(** [LocalTime(t)] *)
Definition localTime (zone : TimeZone) (t : Z) : Z := t + offsetAt zone t.

(** [UTC(l)] *)
Definition utc (zone : TimeZone) (l : Z) : Z := l - offsetOfLocal zone l.

(** [d.setHours(h, m, 0, 0)] *)
Definition setHours (zone : TimeZone) (d h m : Z) : Z :=
  utc zone (JsDate.setHours (localTime zone d) h m).

(** [d.setMinutes(d.getMinutes() + k)] *)
Definition addMinutes (zone : TimeZone) (d k : Z) : Z :=
  utc zone (JsDate.addMinutes (localTime zone d) k).

(** [d.setDate(d.getDate() + k)] *)
Definition addDays (zone : TimeZone) (d k : Z) : Z :=
  utc zone (JsDate.addDays (localTime zone d) k).

(** [d.setHours(d.getHours() + k)] *)
Definition addHours (zone : TimeZone) (d k : Z) : Z :=
  utc zone (localTime zone d + k * JsDate.msPerHour).

(** [d.getDay()] *)
Definition getDay (zone : TimeZone) (d : Z) : Z :=
  JsDate.getDay (localTime zone d).

(** The [while (slotStart < dayEnd)] loop.  Nothing in the code makes
    [slotEnd] lie after [slotStart]: that is up to the zone.  [fuel] is the
    number of turns granted; [None] is a loop still running after them. *)
Fixpoint slotLoop (zone : TimeZone) (fuel : nat) (slotStart dayEnd : Z)
  : option (list TimeSlot) :=
  if slotStart <? dayEnd then
    match fuel with
    | O => None
    | S fuel' =>
        let slotEnd := addMinutes zone slotStart slotDuration in
        match slotLoop zone fuel' slotEnd dayEnd with
        | Some rest =>
            Some ((if slotEnd <=? dayEnd
                   then [mkSlot slotStart slotEnd None] else []) ++ rest)
        | None => None
        end
    end
  else Some [].

(** The body of the [for] loop over days, at [currentDate]. *)
Definition daySlots (zone : TimeZone) (fuel : nat)
  (settings : SchedulerSettings) (currentDate : Z)
  : option (list TimeSlot) :=
  if includes (workingDays settings) (getDay zone currentDate) then
    let '(startHour, startMinute) := workingHoursStart settings in
    let '(endHour, endMinute) := workingHoursEnd settings in
    let dayStart := setHours zone currentDate startHour startMinute in
    let dayEnd := setHours zone currentDate endHour endMinute in
    slotLoop zone fuel dayStart dayEnd
  else Some [].

Fixpoint dayLoop (zone : TimeZone) (fuel : nat)
  (settings : SchedulerSettings) (days : nat) (currentDate : Z)
  : option (list TimeSlot) :=
  match days with
  | O => Some []
  | S days' =>
      match daySlots zone fuel settings currentDate with
      | Some today =>
          match dayLoop zone fuel settings days'
                  (addDays zone currentDate 1) with
          | Some rest => Some (today ++ rest)
          | None => None
          end
      | None => None
      end
  end.

(** [generateTimeSlots], with [fuel] turns granted to each [while] loop. *)
Definition generateTimeSlots (zone : TimeZone) (fuel : nat)
  (settings : SchedulerSettings) (startDate : Z) (daysToSchedule : Z)
  : option (list TimeSlot) :=
  let currentDate := setHours zone startDate 0 0 in
  dayLoop zone fuel settings (Z.to_nat daysToSchedule) currentDate.

(** [Task.isDueSoon], with the clock reading [now]: [twoDaysFromNow] is
    [now] with 48 added to its local hour. *)
Definition isDueSoon (zone : TimeZone) (now : Z) (t : Task) : bool :=
  match deadline t with
  | None => false
  | Some d =>
      let twoDaysFromNow := addHours zone now 48 in
      (now <? d) && (d <=? twoDaysFromNow)
  end.

End Zoned.

(** ** A small run, for the examples *)

Module Example.

(** Working hours 09:00-17:00, Monday to Friday. *)
Definition settings : SchedulerSettings :=
  mkSettings (9, 0) (17, 0) [1; 2; 3; 4; 5].

(** Midnight of 2024-01-01, a Monday. *)
Definition monday : Z := 19723 * JsDate.msPerDay.

(** One hour of work, due at noon. *)
Definition report : Task :=
  mkTask 1 60 (Some (monday + 12 * JsDate.msPerHour)) None.

Definition init : RunState := initialRun settings monday [report] monday 1.

(** The state after the first step of the run. *)
Definition placed : RunState :=
  Eval vm_compute in
    match runStep (FirstPass 0%nat) init with
    | Ok st => st
    | Error _ => init
    end.

(** Two free slots, back to back. *)
Definition twoSlots : list SlotRef :=
  refsOf [mkSlot 0 1800000 None; mkSlot 1800000 3600000 None].

(** A task five days overdue when the clock reads [monday]. *)
Definition overdue : Task :=
  mkTask 5 30 (Some (monday - 5 * JsDate.msPerDay)) None.

(** [report] once it is placed, at 09:00. *)
Definition scheduled : Task :=
  setScheduledTime (monday + 9 * JsDate.msPerHour) report.

(** A task of priority 1 without deadline. *)
Definition undated : Task := mkTask 1 30 None None.

(** A free slot, an assigned one, a free one. *)
Definition fragmented : list SlotRef :=
  refsOf [mkSlot 0 1800000 None;
          mkSlot 1800000 3600000 (Some 7%nat);
          mkSlot 3600000 5400000 None].


(** The offsets of America/New_York around its two changes of 2024:
    five hours behind UTC, four from 2024-03-10 07:00 UTC (02:00 local,
    read as 03:00) to 2024-11-03 06:00 UTC (02:00 local, read as 01:00).
    The local hour from 02:00 on 10 March is skipped and the one from 01:00
    on 3 November comes twice; both are read back with the offset from
    before the change. *)
Definition newYork : Zoned.TimeZone :=
  let est := -5 * JsDate.msPerHour in
  let edt := -4 * JsDate.msPerHour in
  let march10 := 19792 * JsDate.msPerDay in
  let november3 := 20030 * JsDate.msPerDay in
  Zoned.mkZone
    (fun t => if (march10 + 7 * JsDate.msPerHour <=? t)
                 && (t <? november3 + 6 * JsDate.msPerHour)
              then edt else est)
    (fun l => if (march10 + 3 * JsDate.msPerHour <=? l)
                 && (l <? november3 + 2 * JsDate.msPerHour)
              then edt else est).

(** A zone that is always [c] milliseconds ahead of UTC. *)
Definition fixedZone (c : Z) : Zoned.TimeZone :=
  Zoned.mkZone (fun _ => c) (fun _ => c).

(** Working hours 00:00-04:00, every day of the week. *)
Definition nightSettings : SchedulerSettings :=
  mkSettings (0, 0) (4, 0) [0; 1; 2; 3; 4; 5; 6].


(** Local midnight of Sunday 2024-03-10 in New York, 05:00 UTC. *)
Definition springForward : Z := 19792 * JsDate.msPerDay + 5 * JsDate.msPerHour.

(** Local midnight of Sunday 2024-11-03 in New York, 04:00 UTC. *)
Definition fallBack : Z := 20030 * JsDate.msPerDay + 4 * JsDate.msPerHour.

(** The grid of Monday 2024-01-01 in New York, working hours 09:00-17:00. *)
Definition winterGrid : list TimeSlot :=
  Eval vm_compute in
    match Zoned.generateTimeSlots newYork 48 settings
            (monday + 5 * JsDate.msPerHour) 1 with
    | Some grid => grid
    | None => []
    end.

(** One hour of work, due at noon in New York, before that grid. *)
Definition winterRun : RunState :=
  mkRun [mkTask 1 60 (Some (monday + 17 * JsDate.msPerHour)) None]
        winterGrid.

(** A task of priority 3 and 90 minutes, due in ten days. *)
Definition errand : Task :=
  mkTask 3 90 (Some (monday + 10 * JsDate.msPerDay)) None.

(** Three tasks, not in ranking order. *)
Definition threeTasks : list Task := [undated; errand; report].

(** What [scheduleTasks] returns for them: [report] at 09:00, the task
    without deadline at 11:30, [errand] at 10:00. *)
Definition threeScheduled : list Task :=
  Eval vm_compute in
    match scheduleTasks settings monday threeTasks monday 1 with
    | Ok result => result
    | Error _ => []
    end.

End Example.

(** ** Vocabulary of the statements *)

(** Width of a slot, in milliseconds. *)
Definition slotMs : Z := slotDuration * JsDate.msPerMinute.


(** Minutes after midnight of an (hour, minute) pair. *)
Definition minutesOf (hm : Z * Z) : Z := fst hm * 60 + snd hm.

(** The slots a day with whole slots from [dayStart] on is expected to
    hold. *)
Definition wholeSlots (dayStart : Z) (n : nat) : list TimeSlot :=
  map (fun k => mkSlot (dayStart + Z.of_nat k * slotMs)
                       (dayStart + (Z.of_nat k + 1) * slotMs) None)
      (seq 0 n).

(** [a] stands somewhere before [b] in [l]. *)
Definition precedes {A : Type} (a b : A) (l : list A) : Prop :=
  exists l1 l2 l3, l = l1 ++ a :: l2 ++ b :: l3.

(** The comparator does not put [b] before [a]. *)
Definition notAfter (now : Z) (a b : Task) : Prop := compareTasks now a b <= 0.

(** [slots[i].endTime == slots[i+1].startTime] at every [i]. *)
Definition contiguous (slots : list SlotRef) : Prop :=
  forall i a b,
    nth_error slots i = Some a -> nth_error slots (S i) = Some b ->
    endTime (slotOf a) = startTime (slotOf b).

(** The same, by recursion on the list. *)
Fixpoint chained (slots : list SlotRef) : Prop :=
  match slots with
  | a :: (b :: _) as rest =>
      endTime (slotOf a) = startTime (slotOf b) /\ chained rest
  | _ => True
  end.

Definition isFree (r : SlotRef) : bool := negb (isAssigned (slotOf r)).

Fixpoint last_error {A : Type} (l : list A) : option A :=
  match l with
  | [] => None
  | [x] => Some x
  | _ :: l' => last_error l'
  end.

(** What the loop has gathered so far: a chain shorter than asked for, whose
    last slot ends at [lastSlotTime]. *)
Definition gathered (consecutiveSlots : list SlotRef)
  (lastSlotTime : option Z) (slotsNeeded : Z) : Prop :=
  chained consecutiveSlots /\
  Z.of_nat (length consecutiveSlots) < slotsNeeded /\
  match lastSlotTime with
  | None => consecutiveSlots = []
  | Some t => exists z, last_error consecutiveSlots = Some z /\
                        endTime (slotOf z) = t
  end.

(** The slot is assigned to the task [t]. *)
Definition holds (t : TaskRef) (s : TimeSlot) : bool :=
  match task s with
  | Some t' => (t' =? t)%nat
  | None => false
  end.

(** Number of slots assigned to the task [t]. *)
Definition occupied (t : TaskRef) (slots : list TimeSlot) : nat :=
  length (filter (holds t) slots).


(** A reference of a view points into [heap], at a free slot. *)
Definition freeIn (heap : list TimeSlot) (r : SlotRef) : Prop :=
  nth_error heap (addr r) = Some (slotOf r) /\ task (slotOf r) = None.

(** What a successful placement of the task [t] on the slots [found] does
    to the state of the run. *)
Definition placedOn (t : TaskRef) (found : list SlotRef)
  (st st' : RunState) : Prop :=
  exists tk first,
    nth_error (sortedTasks st) t = Some tk /\
    hd_error found = Some first /\
    Z.of_nat (length found) = ceilDiv (timeEstimate tk) 30 /\
    chained found /\
    NoDup (map addr found) /\
    Forall (freeIn (availableSlots st)) found /\
    st' = mkRun (updateAt (setScheduledTime (startTime (slotOf first))) t
                   (sortedTasks st))
                (markSlots t found (availableSlots st)).


(** Where a task stands during a run that started with the tasks [tasks0]:
    either it holds no slot and its scheduled time is the one it came with,
    or it holds as many slots as its time estimate asks for and its
    scheduled time is the start of one of them. *)
Definition settled (tasks0 : list Task) (st : RunState) (i : TaskRef)
  : Prop :=
  exists tk0 tk,
    nth_error tasks0 i = Some tk0 /\
    nth_error (sortedTasks st) i = Some tk /\
    timeEstimate tk = timeEstimate tk0 /\
    ((scheduledTime tk = scheduledTime tk0 /\
      occupied i (availableSlots st) = 0%nat) \/
     (Z.of_nat (occupied i (availableSlots st))
      = ceilDiv (timeEstimate tk) 30 /\
      exists j s,
        nth_error (availableSlots st) j = Some s /\ task s = Some i /\
        scheduledTime tk = Some (startTime s))).

(** The run has not changed the task, and no slot is assigned to it. *)
Definition untouched (tasks0 : list Task) (st : RunState) (i : TaskRef)
  : Prop :=
  nth_error (sortedTasks st) i = nth_error tasks0 i /\
  occupied i (availableSlots st) = 0%nat.


(** The list holds, side by side, [n] slots each ending where the next
    begins. *)
Definition hasRun (n : Z) (l : list SlotRef) : Prop :=
  exists before run after,
    l = before ++ run ++ after /\ chained run /\ Z.of_nat (length run) = n.

(** A task as it is before any scheduling: without scheduled time. *)
Definition unscheduled (tk : Task) : Task :=
  mkTask (priority tk) (timeEstimate tk) (deadline tk) None.

(** The task a step is at. *)
Definition stepTask (s : PlacementStep) : TaskRef :=
  match s with
  | FirstPass t => t
  | SecondPass t => t
  end.

(** When both tasks are scheduled, [a] is not scheduled after [b]. *)
Definition notScheduledAfter (a b : Task) : Prop :=
  forall ta tb,
    scheduledTime a = Some ta -> scheduledTime b = Some tb -> ta <= tb.

(** The scheduled time of a task that has one. *)
Definition timeKey (tk : Task) : Z :=
  match scheduledTime tk with
  | Some time => time
  | None => 0
  end.

(** The string does not hold the character [sep]. *)
Fixpoint freeOf (sep : Ascii.ascii) (s : String.string) : bool :=
  match s with
  | String.EmptyString => true
  | String.String c rest => negb (Ascii.eqb c sep) && freeOf sep rest
  end.

(** The string is one line: it holds no line feed. *)
Definition singleLine (s : String.string) : bool := freeOf newline s.



(** The slot [s], [k] milliseconds later. *)
Definition shiftSlot (k : Z) (s : TimeSlot) : TimeSlot :=
  mkSlot (startTime s + k) (endTime s + k) (task s).

(** From the instant [lo] to the instant [hi] the local time of the zone is
    [c] milliseconds ahead of UTC, and the local times of these instants
    are read back with that offset. *)
Definition steadyOn (zone : Zoned.TimeZone) (c lo hi : Z) : Prop :=
  forall t,
    lo <= t <= hi ->
    Zoned.offsetAt zone t = c /\ Zoned.offsetOfLocal zone (t + c) = c.

(** [generateTimeSlots] returns [grid]: its loops end within some number of
    turns, with [grid] in [slots]. *)
Definition returnsGrid (zone : Zoned.TimeZone) (settings : SchedulerSettings)
  (startDate daysToSchedule : Z) (grid : list TimeSlot) : Prop :=
  exists fuel,
    Zoned.generateTimeSlots zone fuel settings startDate daysToSchedule
    = Some grid.

(** The free slots of a grid that are over by [d], in array order: the
    [deadlineSlots] of [scheduleTaskWithDeadline]. *)
Definition freeBy (d : Z) (slots : list TimeSlot) : list SlotRef :=
  filter (fun slot => negb (isAssigned (slotOf slot))
                      && (endTime (slotOf slot) <=? d))
         (refsOf slots).

(** A placement helper that asks for [n] slots out of [view], seen by its
    result for the task [t] in the state [st]: with a run of [n] slots in
    [view] it returns true and has given the task [n] more slots, and
    without one it returns false and has changed nothing. *)
Definition asksFor (n : Z) (view : list SlotRef)
  (result : Result (bool * RunState)) (t : TaskRef) (st : RunState)
  : Prop :=
  (hasRun n view ->
   exists st',
     result = Ok (true, st') /\
     Z.of_nat (occupied t (availableSlots st'))
     = Z.of_nat (occupied t (availableSlots st)) + n) /\
  (~ hasRun n view -> result = Ok (false, st)).

(* ================================================================== *)
(** * Properties *)

(** ** The grid *)

Section Grid.

Variable settings : SchedulerSettings.

Lemma slotLoop_sound fuel : forall slotStart dayEnd s,
  In s (slotLoop fuel slotStart dayEnd) ->
  endTime s = startTime s + slotMs /\ task s = None /\
  slotStart <= startTime s /\ endTime s <= dayEnd.
Proof.
  induction fuel as [|fuel IH]; intros a e s Hin; simpl in Hin.
  - contradiction.
  - destruct (Z.ltb_spec a e); [|contradiction].
    apply in_app_or in Hin. destruct Hin as [Hin|Hin].
    + destruct (Z.leb_spec (JsDate.addMinutes a slotDuration) e) as [Hle|];
        [|contradiction].
      destruct Hin as [<-|[]]. simpl.
      unfold JsDate.addMinutes, slotMs, slotDuration, JsDate.msPerMinute
        in *.
      repeat split; lia.
    + apply IH in Hin.
      unfold JsDate.addMinutes, slotDuration, JsDate.msPerMinute in Hin.
      intuition lia.
Qed.

(** With whole slots up to [dayEnd] the loop emits every one of them, and
    any fuel beyond their number is left unused. *)
Lemma slotLoop_whole n : forall fuel slotStart,
  (n < fuel)%nat ->
  slotLoop fuel slotStart (slotStart + Z.of_nat n * slotMs)
  = wholeSlots slotStart n.
Proof.
  unfold wholeSlots.
  induction n as [|n IH]; intros fuel a Hf.
  - destruct fuel; [lia|]. simpl.
    destruct (Z.ltb_spec a (a + 0)); [lia|reflexivity].
  - destruct fuel as [|fuel]; [lia|].
    cbn [slotLoop].
    assert (Hw : 0 < slotMs) by (unfold slotMs; reflexivity).
    destruct (Z.ltb_spec a (a + Z.of_nat (S n) * slotMs)); [|nia].
    assert (Hend : JsDate.addMinutes a slotDuration = a + slotMs)
      by reflexivity.
    rewrite Hend.
    destruct (Z.leb_spec (a + slotMs) (a + Z.of_nat (S n) * slotMs));
      [|nia].
    replace (a + Z.of_nat (S n) * slotMs)
      with ((a + slotMs) + Z.of_nat n * slotMs) by lia.
    rewrite IH by lia.
    cbn [seq map app]. f_equal.
    + f_equal; lia.
    + rewrite <- seq_shift, map_map. apply map_ext. intros k.
      f_equal; lia.
Qed.

Lemma slotLoop_done fuel slotStart dayEnd :
  dayEnd <= slotStart -> slotLoop fuel slotStart dayEnd = [].
Proof.
  intros H. destruct fuel; simpl; [reflexivity|].
  destruct (Z.ltb_spec slotStart dayEnd); [lia|reflexivity].
Qed.

(** Once [fuel] slots reach [dayEnd], more fuel changes nothing. *)
Lemma slotLoop_fuel_enough fuel : forall slotStart dayEnd extra,
  dayEnd - slotStart <= Z.of_nat fuel * slotMs ->
  slotLoop (fuel + extra) slotStart dayEnd = slotLoop fuel slotStart dayEnd.
Proof.
  induction fuel as [|fuel IH]; intros a e extra Hf.
  - simpl. apply slotLoop_done. lia.
  - cbn [Nat.add slotLoop].
    destruct (Z.ltb_spec a e) as [Hlt|]; [|reflexivity].
    f_equal. apply IH.
    change (JsDate.addMinutes a slotDuration) with (a + slotMs). lia.
Qed.

(** [slotLoopFuel] is enough: the loop stops within that many turns. *)
Lemma slotLoopFuel_enough slotStart dayEnd :
  dayEnd - slotStart
  <= Z.of_nat (slotLoopFuel slotStart dayEnd) * slotMs.
Proof.
  unfold slotLoopFuel. fold slotMs.
  assert (Hw : 0 < slotMs) by reflexivity.
  destruct (Z.le_gt_cases 0 (dayEnd - slotStart)) as [Hpos|Hneg].
  - pose proof (Z.div_pos _ _ Hpos Hw) as Hq.
    pose proof (Z.mod_pos_bound (dayEnd - slotStart) slotMs Hw) as Hr.
    pose proof (Z.div_mod (dayEnd - slotStart) slotMs ltac:(lia)) as Hd.
    rewrite Nat2Z.inj_succ, Z2Nat.id by lia. nia.
  - rewrite Nat2Z.inj_succ.
    pose proof (Nat2Z.is_nonneg
                  (Z.to_nat ((dayEnd - slotStart) / slotMs))). nia.
Qed.

(** The slots of a day do not depend on the fuel, once it is enough. *)
Lemma slotLoop_total slotStart dayEnd extra :
  slotLoop (slotLoopFuel slotStart dayEnd + extra) slotStart dayEnd
  = slotLoop (slotLoopFuel slotStart dayEnd) slotStart dayEnd.
Proof. apply slotLoop_fuel_enough, slotLoopFuel_enough. Qed.

Lemma startOfDay_midnight q :
  JsDate.startOfDay (q * JsDate.msPerDay) = q * JsDate.msPerDay.
Proof.
  unfold JsDate.startOfDay. rewrite Z.div_mul; [reflexivity|discriminate].
Qed.

Lemma setHours_midnight q h m :
  JsDate.setHours (q * JsDate.msPerDay) h m
  = q * JsDate.msPerDay + minutesOf (h, m) * JsDate.msPerMinute.
Proof.
  unfold JsDate.setHours. rewrite startOfDay_midnight.
  unfold minutesOf, JsDate.msPerHour, JsDate.msPerMinute. simpl. lia.
Qed.

Lemma daySlots_sound currentDate s :
  In s (daySlots settings currentDate) ->
  endTime s = startTime s + slotMs /\ task s = None /\
  JsDate.setHours currentDate (fst (workingHoursStart settings))
    (snd (workingHoursStart settings)) <= startTime s /\
  endTime s <= JsDate.setHours currentDate (fst (workingHoursEnd settings))
    (snd (workingHoursEnd settings)).
Proof.
  unfold daySlots.
  destruct (includes _ _); [|contradiction].
  destruct (workingHoursStart settings) as [sh sm].
  destruct (workingHoursEnd settings) as [eh em].
  apply slotLoop_sound.
Qed.

Lemma dayLoop_In days : forall currentDate s,
  In s (dayLoop settings days currentDate) ->
  exists j, (j < days)%nat /\
    In s (daySlots settings (JsDate.addDays currentDate (Z.of_nat j))).
Proof.
  induction days as [|days IH]; intros c s Hin; simpl in Hin.
  - contradiction.
  - apply in_app_or in Hin. destruct Hin as [Hin|Hin].
    + exists 0%nat. split; [lia|].
      unfold JsDate.addDays. simpl. now rewrite Z.add_0_r.
    + apply IH in Hin. destruct Hin as (j & Hj & Hin).
      exists (S j). split; [lia|].
      unfold JsDate.addDays in *.
      replace (c + Z.of_nat (S j) * JsDate.msPerDay)
        with (c + 1 * JsDate.msPerDay + Z.of_nat j * JsDate.msPerDay)
        by lia.
      exact Hin.
Qed.

(** Every slot of the grid is free and one slot wide. *)
Lemma generateTimeSlots_sound startDate daysToSchedule s :
  In s (generateTimeSlots settings startDate daysToSchedule) ->
  endTime s = startTime s + slotMs /\ task s = None.
Proof.
  unfold generateTimeSlots. intros Hin.
  apply dayLoop_In in Hin. destruct Hin as (j & _ & Hin).
  apply daySlots_sound in Hin. tauto.
Qed.

Lemma filter_all {A : Type} (f : A -> bool) (l : list A) :
  (forall x, In x l -> f x = true) -> filter f l = l.
Proof.
  induction l as [|x l IH]; intros H; simpl; [reflexivity|].
  rewrite (H x) by (now left). f_equal. apply IH.
  intros y Hy. apply H. now right.
Qed.


(** Working hours inside the day keep the slots of a day on that day. *)
Hypothesis window_in_day :
  0 <= minutesOf (workingHoursStart settings) /\
  minutesOf (workingHoursEnd settings) <= 1440.



End Grid.

(** ** The ranker *)

Section StableSort.

Context {A : Type}.
Variable cmp : A -> A -> Z.
Let le (a b : A) : Prop := cmp a b <= 0.

(** The comparator never claims of two elements that each comes after the
    other. *)
Hypothesis cmp_total : forall a b, 0 < cmp a b -> cmp b a <= 0.

Lemma insertSorted_perm x l : Permutation (x :: l) (insertSorted cmp x l).
Proof.
  induction l as [|y l IH]; simpl; [apply Permutation_refl|].
  destruct (cmp x y <=? 0); [apply Permutation_refl|].
  eapply perm_trans; [apply perm_swap|]. now apply perm_skip.
Qed.

Lemma arraySort_perm l : Permutation l (arraySort cmp l).
Proof.
  induction l as [|x l IH]; simpl; [constructor|].
  eapply perm_trans; [|apply insertSorted_perm]. now apply perm_skip.
Qed.

Lemma insertSorted_HdRel x y l :
  le y x -> HdRel le y l -> HdRel le y (insertSorted cmp x l).
Proof.
  intros Hyx Hhd. destruct l as [|z l]; simpl.
  - now constructor.
  - destruct (cmp x z <=? 0); constructor; [assumption|].
    now inversion Hhd.
Qed.

Lemma insertSorted_sorted x l :
  Sorted le l -> Sorted le (insertSorted cmp x l).
Proof.
  induction l as [|y l IH]; intros Hs; simpl.
  - repeat constructor.
  - destruct (Z.leb_spec (cmp x y) 0) as [Hle|Hgt].
    + constructor; [assumption|]. now constructor.
    + inversion Hs; subst. constructor; [now apply IH|].
      apply insertSorted_HdRel; [|assumption].
      now apply cmp_total.
Qed.

Lemma arraySort_sorted l : Sorted le (arraySort cmp l).
Proof.
  induction l as [|x l IH]; simpl; [constructor|].
  now apply insertSorted_sorted.
Qed.

(** A list that is already in order is left as it is. *)
Lemma arraySort_fixes_sorted l : Sorted le l -> arraySort cmp l = l.
Proof.
  induction l as [|x l IH]; intros Hs; simpl; [reflexivity|].
  inversion Hs as [|? ? Hl Hhd]; subst. rewrite IH by assumption.
  destruct Hhd as [|y l' Hxy]; simpl; [reflexivity|].
  unfold le in Hxy. apply Z.leb_le in Hxy. now rewrite Hxy.
Qed.

Lemma arraySort_idempotent l :
  arraySort cmp (arraySort cmp l) = arraySort cmp l.
Proof. apply arraySort_fixes_sorted, arraySort_sorted. Qed.

Hypothesis cmp_trans : forall a b c, le a b -> le b c -> le a c.

Lemma arraySort_strongly_sorted l : StronglySorted le (arraySort cmp l).
Proof.
  apply Sorted_StronglySorted; [|apply arraySort_sorted].
  intros a b c. apply cmp_trans.
Qed.

(** An element that the comparator puts strictly first comes out first. *)
Lemma arraySort_precedes a b l :
  In a l -> In b l -> 0 < cmp b a -> precedes a b (arraySort cmp l).
Proof.
  intros Ha Hb Hba.
  pose proof (arraySort_strongly_sorted l) as Hss.
  pose proof (arraySort_perm l) as Hp.
  apply (Permutation_in _ Hp) in Ha. apply (Permutation_in _ Hp) in Hb.
  assert (Hrefl : cmp a a <= 0).
  { destruct (Z.le_gt_cases (cmp a a) 0) as [H|H]; [exact H|].
    now apply cmp_total. }
  apply in_split in Ha. destruct Ha as (l1 & l2 & Heq).
  rewrite Heq in Hss, Hb.
  assert (Hright : StronglySorted le (a :: l2)).
  { clear -Hss. induction l1 as [|z l1 IH]; simpl in Hss; [exact Hss|].
    apply IH. now inversion Hss. }
  assert (Hleft : forall z, In z l1 -> le z a).
  { clear -Hss. induction l1 as [|y l1 IH]; intros z Hz; [contradiction|].
    simpl in Hss. inversion Hss as [|? ? Hrest Hall]; subst.
    destruct Hz as [->|Hz]; [|now apply IH].
    rewrite Forall_forall in Hall. apply Hall.
    apply in_or_app. right. now left. }
  apply in_app_or in Hb. destruct Hb as [Hb|[Hb|Hb]].
  - apply Hleft in Hb. unfold le in Hb. lia.
  - subst b. lia.
  - apply in_split in Hb. destruct Hb as (l3 & l4 & ->).
    exists l1, l3, l4. exact Heq.
Qed.

(** The sort is stable: among the elements that the comparator ties with
    [x], the original order is kept. *)
Hypothesis cmp_antisym : forall a b, cmp a b < 0 <-> 0 < cmp b a.

Lemma tie_sym a b : cmp a b = 0 -> cmp b a = 0.
Proof.
  intros Hab. destruct (Z.lt_trichotomy (cmp b a) 0) as [H|[H|H]].
  - apply cmp_antisym in H. lia.
  - exact H.
  - apply cmp_antisym in H. lia.
Qed.

Lemma insertSorted_ties x y l :
  filter (fun z => cmp x z =? 0) (insertSorted cmp y l)
  = if cmp x y =? 0 then y :: filter (fun z => cmp x z =? 0) l
    else filter (fun z => cmp x z =? 0) l.
Proof.
  induction l as [|z l IH]; simpl.
  - destruct (cmp x y =? 0); reflexivity.
  - destruct (Z.leb_spec (cmp y z) 0) as [Hle|Hgt]; simpl.
    + destruct (cmp x y =? 0); reflexivity.
    + rewrite IH.
      destruct (Z.eqb_spec (cmp x y) 0) as [Hxy|Hxy]; [|reflexivity].
      destruct (Z.eqb_spec (cmp x z) 0) as [Hxz|Hxz]; [|reflexivity].
      exfalso. apply tie_sym in Hxy.
      assert (Hyz : le y z) by (apply (cmp_trans y x z); unfold le; lia).
      unfold le in Hyz. lia.
Qed.

Lemma arraySort_stable x l :
  filter (fun z => cmp x z =? 0) (arraySort cmp l)
  = filter (fun z => cmp x z =? 0) l.
Proof.
  induction l as [|y l IH]; simpl; [reflexivity|].
  rewrite insertSorted_ties, IH. reflexivity.
Qed.

End StableSort.

Ltac comparator_cases :=
  unfold notAfter, compareTasks, isUrgent;
  repeat match goal with
         | t : Task |- _ => destruct t as [? ? [?|] ?]
         end;
  cbn [priority timeEstimate deadline scheduledTime];
  repeat match goal with
         | |- context [?x <? ?y] => destruct (Z.ltb_spec x y)
         | |- context [?x =? ?y] => destruct (Z.eqb_spec x y)
         end;
  cbn [andb negb]; intros; try lia.

(** With one clock reading the comparator is a consistent one: it is total
    and transitive, which is what [sort] asks of it. *)
Lemma compareTasks_total now a b :
  0 < compareTasks now a b -> compareTasks now b a <= 0.
Proof. revert a b. intros a b. comparator_cases. Qed.

Lemma compareTasks_trans now a b c :
  notAfter now a b -> notAfter now b c -> notAfter now a c.
Proof. revert a b c. intros a b c. comparator_cases. Qed.

Lemma compareTasks_antisym now a b :
  compareTasks now a b < 0 <-> 0 < compareTasks now b a.
Proof. revert a b. intros a b. split; comparator_cases. Qed.

(** The ranked list is a stable, ordered rearrangement of the tasks. *)
Lemma sortTasksByPriority_sorted now tasks :
  StronglySorted (notAfter now) (sortTasksByPriority now tasks) /\
  Permutation tasks (sortTasksByPriority now tasks) /\
  forall x,
    filter (fun z => compareTasks now x z =? 0)
           (sortTasksByPriority now tasks)
    = filter (fun z => compareTasks now x z =? 0) tasks.
Proof.
  unfold sortTasksByPriority. repeat split.
  - apply arraySort_strongly_sorted; [apply compareTasks_total|].
    intros a b c. apply compareTasks_trans.
  - apply arraySort_perm.
  - intros x. apply arraySort_stable.
    + intros a b c. apply compareTasks_trans.
    + apply compareTasks_antisym.
Qed.

(** C6.  With the clock reading fixed, ranking a ranked list gives the same
    list again. *)
Theorem sortTasksByPriority_idempotent :
  forall now tasks,
    sortTasksByPriority now (sortTasksByPriority now tasks)
    = sortTasksByPriority now tasks.
Proof.
  intros now tasks. unfold sortTasksByPriority.
  apply arraySort_idempotent. apply compareTasks_total.
Qed.

(** C7.  A task whose deadline is less than 48 hours after [now] is put
    strictly before a task without deadline by the comparator, whatever the
    priorities, and stands before it in the ranked list. *)
Theorem urgent_before_undated :
  forall now a b d,
    deadline a = Some d ->
    d - now < urgentThreshold ->
    deadline b = None ->
    compareTasks now a b < 0 /\ 0 < compareTasks now b a /\
    forall tasks, In a tasks -> In b tasks ->
                  precedes a b (sortTasksByPriority now tasks).
Proof.
  intros now a b d Ha Hd Hb.
  assert (Hab : compareTasks now a b = -1).
  { unfold compareTasks, isUrgent. rewrite Ha, Hb.
    apply Z.ltb_lt in Hd. now rewrite Hd. }
  assert (Hba : 0 < compareTasks now b a)
    by (apply compareTasks_antisym; lia).
  repeat split; [lia|exact Hba|].
  intros tasks Hina Hinb. unfold sortTasksByPriority.
  apply arraySort_precedes; auto using compareTasks_total.
  intros x y z. apply compareTasks_trans.
Qed.

(** C10.  A task whose deadline has passed counts as urgent for the
    comparator, which puts it strictly before every task that is not urgent,
    whatever the priorities; [isDueSoon] says of the same task that it is
    not due soon. *)
Theorem overdue_is_urgent_not_due_soon :
  forall now a d,
    deadline a = Some d ->
    d < now ->
    isUrgent now a = true /\ isDueSoon now a = false /\
    forall b, isUrgent now b = false ->
      compareTasks now a b < 0 /\ 0 < compareTasks now b a /\
      forall tasks, In a tasks -> In b tasks ->
                    precedes a b (sortTasksByPriority now tasks).
Proof.
  intros now a d Ha Hd.
  assert (Hu : isUrgent now a = true).
  { unfold isUrgent. rewrite Ha. apply Z.ltb_lt.
    unfold urgentThreshold. lia. }
  split; [exact Hu|]. split.
  { unfold isDueSoon. rewrite Ha.
    destruct (Z.ltb_spec now d); [lia|reflexivity]. }
  intros b Hb.
  assert (Hab : compareTasks now a b = -1)
    by (unfold compareTasks; now rewrite Hu, Hb).
  assert (Hba : 0 < compareTasks now b a)
    by (apply compareTasks_antisym; lia).
  repeat split; [lia|exact Hba|].
  intros tasks Hina Hinb. unfold sortTasksByPriority.
  apply arraySort_precedes; auto using compareTasks_total.
  intros x y z. apply compareTasks_trans.
Qed.

(** ** The finder *)

Lemma chained_contiguous slots : chained slots -> contiguous slots.
Proof.
  induction slots as [|a [|b rest] IH]; intros Hc i x y Hx Hy.
  - destruct i; discriminate.
  - destruct i as [|[|i]]; discriminate.
  - destruct Hc as [Hab Hc]. destruct i as [|i].
    + simpl in Hx, Hy. now inversion Hx; inversion Hy; subst.
    + apply (IH Hc i); assumption.
Qed.

Lemma chained_snoc slots s :
  chained slots ->
  (forall z, last_error slots = Some z ->
             endTime (slotOf z) = startTime (slotOf s)) ->
  chained (slots ++ [s]).
Proof.
  induction slots as [|a [|b rest] IH]; intros Hc Hlast.
  - exact I.
  - simpl. split; [|exact I]. now apply Hlast.
  - destruct Hc as [Hab Hc]. split; [exact Hab|].
    apply IH; [exact Hc|]. intros z Hz. apply Hlast. exact Hz.
Qed.

Lemma last_error_snoc {A : Type} (l : list A) (x : A) :
  last_error (l ++ [x]) = Some x.
Proof.
  induction l as [|a [|b l] IH]; try reflexivity.
  exact IH.
Qed.

Lemma slice0_all {A : Type} (l : list A) :
  slice0 l (Z.of_nat (length l)) = l.
Proof.
  unfold slice0. destruct (Z.ltb_spec (Z.of_nat (length l)) 0); [lia|].
  rewrite Nat2Z.id. apply firstn_all.
Qed.

Lemma findLoop_spec slots : forall consecutiveSlots lastSlotTime n before,
  0 < n ->
  gathered consecutiveSlots lastSlotTime n ->
  let found := findLoop slots consecutiveSlots lastSlotTime n in
  found = [] \/
  (Z.of_nat (length found) = n /\ chained found /\
   exists before' after,
     before ++ consecutiveSlots ++ filter isFree slots
     = before' ++ found ++ after).
Proof.
  induction slots as [|slot rest IH]; intros cs last n before Hn Hg;
    cbn [findLoop]; [now left|].
  change (filter isFree (slot :: rest))
    with (if isFree slot then slot :: filter isFree rest
          else filter isFree rest).
  unfold isFree at 1.
  destruct (isAssigned (slotOf slot)) eqn:Hassigned; cbn [negb].
  - apply IH; assumption.
  - destruct Hg as (Hch & Hlen & Hlast).
    set (kept := match last with
                 | Some t => if negb (startTime (slotOf slot) =? t)
                             then [] else cs
                 | None => cs
                 end).
    assert (Hkept : chained kept /\ Z.of_nat (length kept) < n /\
                    (forall z, last_error kept = Some z ->
                       endTime (slotOf z) = startTime (slotOf slot)) /\
                    exists before2, before ++ cs = before2 ++ kept).
    { unfold kept. destruct last as [t|].
      - destruct (Z.eqb_spec (startTime (slotOf slot)) t) as [He|Hne];
          cbn [negb].
        + repeat split; try assumption.
          * intros z Hz. destruct Hlast as (z' & Hz' & Hend).
            rewrite Hz in Hz'. inversion Hz'; subst. lia.
          * now exists before.
        + repeat split; simpl; try lia; try discriminate.
          exists (before ++ cs). now rewrite app_nil_r.
      - subst cs. repeat split; simpl; try lia; try discriminate.
        now exists before. }
    clearbody kept. destruct Hkept as (Hkc & Hkl & Hkt & before2 & Hb2).
    assert (Hsnoc : chained (kept ++ [slot])) by now apply chained_snoc.
    assert (Hlen' : Z.of_nat (length (kept ++ [slot]))
                    = Z.of_nat (length kept) + 1)
      by (rewrite length_app; simpl; lia).
    assert (Hsplit : before ++ cs ++ slot :: filter isFree rest
                     = before2 ++ (kept ++ [slot]) ++ filter isFree rest).
    { rewrite app_assoc, Hb2, <- !app_assoc. reflexivity. }
    destruct (Z.geb_spec (Z.of_nat (length (kept ++ [slot]))) n)
      as [Hge|Hlt].
    + right.
      assert (Hexact : n = Z.of_nat (length (kept ++ [slot]))) by lia.
      rewrite Hexact, slice0_all, <- Hexact.
      split; [reflexivity|]. split; [exact Hsnoc|].
      exists before2, (filter isFree rest). exact Hsplit.
    + rewrite Hsplit. apply IH; [exact Hn|].
      repeat split; [exact Hsnoc|lia|].
      exists slot. split; [apply last_error_snoc|reflexivity].
Qed.

(** For a positive count the finder returns nothing, or a chain of exactly
    that many slots cut out of the free slots of its input. *)
Lemma findConsecutiveSlots_spec slots n :
  0 < n ->
  let found := findConsecutiveSlots slots n in
  found = [] \/
  (Z.of_nat (length found) = n /\ chained found /\
   exists before after, filter isFree slots = before ++ found ++ after).
Proof.
  intros Hn. unfold findConsecutiveSlots.
  apply (findLoop_spec slots [] None n []); [exact Hn|].
  repeat split; simpl; lia.
Qed.

(** Asked for no slot at all, or for fewer, the finder returns nothing. *)
Lemma findConsecutiveSlots_nonpos slots n :
  n <= 0 -> findConsecutiveSlots slots n = [].
Proof.
  intros Hn. unfold findConsecutiveSlots.
  induction slots as [|slot rest IH]; cbn [findLoop]; [reflexivity|].
  destruct (isAssigned (slotOf slot)); [exact IH|].
  cbn [app length].
  destruct (Z.geb_spec (Z.of_nat 1) n); [|lia].
  unfold slice0. destruct (Z.ltb_spec n 0).
  - replace (Z.to_nat (Z.of_nat (length [slot]) + n)) with 0%nat
      by (cbn [length]; lia).
    reflexivity.
  - replace n with 0 by lia. reflexivity.
Qed.

(** C2.  For a positive count the finder returns the empty sequence or
    exactly [count] slots, none of them assigned, each ending where the
    next begins. *)
Theorem findConsecutiveSlots_contract :
  forall slots count,
    0 < count ->
    let found := findConsecutiveSlots slots count in
    found = [] \/
    (Z.of_nat (length found) = count /\
     Forall (fun s => task (slotOf s) = None) found /\
     contiguous found).
Proof.
  intros slots n Hn found.
  destruct (findConsecutiveSlots_spec slots n Hn)
    as [Hnil|(Hlen & Hch & before & after & Hcut)]; [now left|right].
  fold found in Hlen, Hch, Hcut.
  repeat split; [exact Hlen| |now apply chained_contiguous].
  rewrite Forall_forall. intros s Hs.
  assert (Hin : In s (filter isFree slots)).
  { rewrite Hcut. apply in_or_app. right. apply in_or_app. now left. }
  apply filter_In in Hin. destruct Hin as [_ Hfree].
  unfold isFree, isAssigned in Hfree.
  destruct (task (slotOf s)); [discriminate|reflexivity].
Qed.

(** ** Slot objects and the references to them *)

Lemma updateAt_length {A : Type} (f : A -> A) i l :
  length (updateAt f i l) = length l.
Proof.
  revert i. induction l as [|x l IH]; intros [|i]; simpl; auto.
Qed.

Lemma nth_error_updateAt {A : Type} (f : A -> A) i l j :
  nth_error (updateAt f i l) j
  = if (j =? i)%nat then option_map f (nth_error l j) else nth_error l j.
Proof.
  revert i j. induction l as [|x l IH]; intros [|i] [|j]; simpl; auto.
  destruct (j =? i)%nat; reflexivity.
Qed.

Lemma In_combine_seq {A : Type} (l : list A) : forall k i x,
  In (i, x) (combine (seq k (length l)) l) ->
  (k <= i)%nat /\ nth_error l (i - k) = Some x.
Proof.
  induction l as [|y l IH]; intros k i x Hin; simpl in Hin; [contradiction|].
  destruct Hin as [Heq|Hin].
  - inversion Heq; subst. rewrite Nat.sub_diag. split; [lia|reflexivity].
  - apply IH in Hin. destruct Hin as [Hk Hn]. split; [lia|].
    replace (i - k)%nat with (S (i - S k)) by lia. exact Hn.
Qed.

Lemma In_refsOf heap r :
  In r (refsOf heap) -> nth_error heap (addr r) = Some (slotOf r).
Proof.
  destruct r as [i s]. unfold refsOf. intros Hin.
  apply In_combine_seq in Hin. simpl. now rewrite Nat.sub_0_r in Hin.
Qed.

Lemma map_fst_combine_seq {A : Type} (l : list A) : forall k,
  map fst (combine (seq k (length l)) l) = seq k (length l).
Proof.
  induction l as [|y l IH]; intros k; simpl; [reflexivity|].
  now rewrite IH.
Qed.

Lemma refsOf_NoDup heap : NoDup (map addr (refsOf heap)).
Proof.
  change (NoDup (map fst (combine (seq 0 (length heap)) heap))).
  rewrite map_fst_combine_seq. apply seq_NoDup.
Qed.

Lemma NoDup_map_filter {A B : Type} (f : A -> B) (p : A -> bool) l :
  NoDup (map f l) -> NoDup (map f (filter p l)).
Proof.
  induction l as [|x l IH]; simpl; intros Hnd; [constructor|].
  inversion Hnd as [|? ? Hnotin Hrest]; subst.
  destruct (p x); [|now apply IH].
  simpl. constructor; [|now apply IH].
  intros Hin. apply Hnotin. apply in_map_iff in Hin.
  destruct Hin as (y & Hy & Hin). apply filter_In in Hin.
  apply in_map_iff. exists y. tauto.
Qed.

Lemma NoDup_map_infix {A B : Type} (f : A -> B) (before mid after : list A) :
  NoDup (map f (before ++ mid ++ after)) -> NoDup (map f mid).
Proof.
  rewrite !map_app. intros Hnd.
  apply NoDup_app_remove_l in Hnd. now apply NoDup_app_remove_r in Hnd.
Qed.

Lemma occupied_updateAt t t' : forall heap i s,
  nth_error heap i = Some s -> task s = None ->
  occupied t' (updateAt (setTask t) i heap)
  = if (t =? t')%nat then S (occupied t' heap) else occupied t' heap.
Proof.
  unfold occupied.
  induction heap as [|x heap IH]; intros [|i] s Hn Hfree; simpl in Hn;
    try discriminate.
  - inversion Hn; subst x. cbn [updateAt filter].
    assert (Hset : holds t' (setTask t s) = (t =? t')%nat) by reflexivity.
    assert (Hnot : holds t' s = false) by (unfold holds; now rewrite Hfree).
    rewrite Hset, Hnot. destruct (t =? t')%nat; reflexivity.
  - cbn [updateAt filter]. specialize (IH i s Hn Hfree).
    destruct (holds t' x); cbn [length]; rewrite IH;
      destruct (t =? t')%nat; reflexivity.
Qed.



Lemma setTask_twice t s : setTask t (setTask t s) = setTask t s.
Proof. reflexivity. Qed.

Lemma nth_error_markSlots t refs : forall heap j,
  nth_error (markSlots t refs heap) j
  = if existsb (Nat.eqb j) (map addr refs)
    then option_map (setTask t) (nth_error heap j)
    else nth_error heap j.
Proof.
  unfold markSlots.
  induction refs as [|r refs IH]; intros heap j; simpl; [reflexivity|].
  rewrite IH, nth_error_updateAt.
  destruct (j =? addr r)%nat; simpl;
    destruct (existsb (Nat.eqb j) (map addr refs)); try reflexivity.
  destruct (nth_error heap j); reflexivity.
Qed.

(** Marking distinct free slots for [t] adds their number to the slots of
    [t] and leaves the count of every other task alone. *)
Lemma occupied_markSlots t t' refs : forall heap,
  NoDup (map addr refs) ->
  Forall (freeIn heap) refs ->
  occupied t' (markSlots t refs heap)
  = if (t =? t')%nat then (occupied t' heap + length refs)%nat
    else occupied t' heap.
Proof.
  unfold markSlots.
  induction refs as [|r refs IH]; intros heap Hnd Hfree; simpl.
  - destruct (t =? t')%nat; lia.
  - inversion Hnd as [|? ? Hnotin Hnd']; subst.
    inversion Hfree as [|? ? [Hr Hrfree] Hfree']; subst.
    rewrite IH.
    + rewrite (occupied_updateAt t t' heap (addr r) (slotOf r) Hr Hrfree).
      destruct (t =? t')%nat; lia.
    + exact Hnd'.
    + rewrite Forall_forall in *. intros r' Hin.
      destruct (Hfree' r' Hin) as [Hr' Hfree''].
      split; [|exact Hfree''].
      rewrite nth_error_updateAt.
      destruct (Nat.eqb_spec (addr r') (addr r)) as [Heq|]; [|exact Hr'].
      exfalso. apply Hnotin. rewrite <- Heq. now apply in_map.
Qed.

(** A slot that is assigned is not among free references: marking leaves it
    as it is. *)
Lemma markSlots_keeps_assigned t refs heap j s v :
  Forall (freeIn heap) refs ->
  nth_error heap j = Some s -> task s = Some v ->
  nth_error (markSlots t refs heap) j = Some s.
Proof.
  intros Hfree Hj Hv. rewrite nth_error_markSlots.
  destruct (existsb (Nat.eqb j) (map addr refs)) eqn:Hex; [|exact Hj].
  apply existsb_exists in Hex. destruct Hex as (a & Hin & Heq).
  apply Nat.eqb_eq in Heq. subst a.
  apply in_map_iff in Hin. destruct Hin as (r & Hr & Hin).
  rewrite Forall_forall in Hfree. destruct (Hfree r Hin) as [Hn Hnone].
  rewrite Hr, Hj in Hn. inversion Hn; subst. congruence.
Qed.

Lemma markSlots_marks t refs heap r :
  Forall (freeIn heap) refs -> In r refs ->
  nth_error (markSlots t refs heap) (addr r) = Some (setTask t (slotOf r)).
Proof.
  intros Hfree Hin. rewrite nth_error_markSlots.
  rewrite Forall_forall in Hfree. destruct (Hfree r Hin) as [Hn _].
  replace (existsb (Nat.eqb (addr r)) (map addr refs)) with true.
  - now rewrite Hn.
  - symmetry. apply existsb_exists. exists (addr r).
    split; [now apply in_map|apply Nat.eqb_refl].
Qed.

(** ** One placement *)

Lemma ceilDiv_spec a :
  30 * (ceilDiv a 30 - 1) < a <= 30 * ceilDiv a 30.
Proof.
  unfold ceilDiv.
  pose proof (Z.div_mod (- a) 30 ltac:(discriminate)).
  pose proof (Z.mod_pos_bound (- a) 30 ltac:(reflexivity)).
  lia.
Qed.

(** A result of the finder that passes the length test of its callers, for
    a positive count and a view of the slot array. *)
Lemma found_in_view heap view n :
  0 < n ->
  NoDup (map addr view) ->
  (forall r, In r view -> nth_error heap (addr r) = Some (slotOf r)) ->
  let found := findConsecutiveSlots view n in
  n <= Z.of_nat (length found) ->
  Z.of_nat (length found) = n /\ chained found /\
  NoDup (map addr found) /\ Forall (freeIn heap) found /\
  (forall r, In r found -> In r view).
Proof.
  intros Hn Hnd Hview found Hlen.
  destruct (findConsecutiveSlots_spec view n Hn)
    as [Hnil|(Hexact & Hch & before & after & Hcut)];
    fold found in Hnil || fold found in Hexact, Hch, Hcut.
  - rewrite Hnil in Hlen. simpl in Hlen. lia.
  - assert (Hsub : forall r, In r found -> In r view /\ isFree r = true).
    { intros r Hr. apply filter_In. rewrite Hcut.
      apply in_or_app. right. apply in_or_app. now left. }
    repeat split; try assumption.
    + apply (NoDup_map_infix addr before found after).
      rewrite <- Hcut. now apply NoDup_map_filter.
    + rewrite Forall_forall. intros r Hr.
      destruct (Hsub r Hr) as [Hin Hfree]. split; [now apply Hview|].
      unfold isFree, isAssigned in Hfree.
      destruct (task (slotOf r)); [discriminate|reflexivity].
    + intros r Hr. now apply Hsub.
Qed.

Lemma nonempty_head {A : Type} (l : list A) :
  (0 < length l)%nat -> exists x, hd_error l = Some x.
Proof. destruct l as [|x l]; simpl; [lia|]. now exists x. Qed.

Lemma assignTaskToSlots_head t found st first :
  hd_error found = Some first ->
  assignTaskToSlots t found st
  = Ok (mkRun (updateAt (setScheduledTime (startTime (slotOf first))) t
                 (sortedTasks st))
              (markSlots t found (availableSlots st))).
Proof.
  destruct found as [|x found]; simpl; [discriminate|].
  intros Hhd. now inversion Hhd.
Qed.

(** What [scheduleTaskAnywhere] can come to. *)
Lemma scheduleTaskAnywhere_outcome t st :
  match scheduleTaskAnywhere t st with
  | Ok (true, st') => exists found, placedOn t found st st'
  | Ok (false, st') => st' = st
  | Error _ => True
  end.
Proof.
  unfold scheduleTaskAnywhere.
  destruct (nth_error (sortedTasks st) t) as [tk|] eqn:Htk; [|exact I].
  set (n := ceilDiv (timeEstimate tk) 30).
  set (found := findConsecutiveSlots (refsOf (availableSlots st)) n).
  destruct (Z.geb_spec (Z.of_nat (length found)) n) as [Hge|Hlt];
    [|reflexivity].
  destruct (Z.le_gt_cases n 0) as [Hnonpos|Hpos].
  - unfold found. rewrite findConsecutiveSlots_nonpos by exact Hnonpos.
    exact I.
  - destruct (found_in_view (availableSlots st)
                (refsOf (availableSlots st)) n)
      as (Hlen & Hch & Hnd & Hfree & _); try assumption; try lia.
    + apply refsOf_NoDup.
    + apply In_refsOf.
    + fold found in Hlen, Hch, Hnd, Hfree.
      destruct (nonempty_head found ltac:(lia)) as [first Hfirst].
      rewrite (assignTaskToSlots_head t found st first Hfirst). simpl.
      exists found, tk, first. repeat split; assumption.
Qed.

(** What [scheduleTaskWithDeadline] can come to. *)
Lemma scheduleTaskWithDeadline_outcome t st :
  match scheduleTaskWithDeadline t st with
  | Ok (true, st') =>
      exists found tk d,
        placedOn t found st st' /\
        nth_error (sortedTasks st) t = Some tk /\ deadline tk = Some d /\
        Forall (fun r => endTime (slotOf r) <= d) found
  | Ok (false, st') => st' = st
  | Error _ => True
  end.
Proof.
  unfold scheduleTaskWithDeadline.
  destruct (nth_error (sortedTasks st) t) as [tk|] eqn:Htk; [|exact I].
  destruct (deadline tk) as [d|] eqn:Hd; [|reflexivity].
  set (view := filter _ (refsOf (availableSlots st))).
  destruct (length view =? 0)%nat; [reflexivity|].
  set (n := ceilDiv (timeEstimate tk) 30).
  set (found := findConsecutiveSlots view n).
  destruct (Z.geb_spec (Z.of_nat (length found)) n) as [Hge|Hlt];
    [|reflexivity].
  destruct (Z.le_gt_cases n 0) as [Hnonpos|Hpos].
  - unfold found. rewrite findConsecutiveSlots_nonpos by exact Hnonpos.
    exact I.
  - destruct (found_in_view (availableSlots st) view n)
      as (Hlen & Hch & Hnd & Hfree & Hsub); try assumption; try lia.
    + apply NoDup_map_filter, refsOf_NoDup.
    + intros r Hr. apply filter_In in Hr. now apply In_refsOf.
    + fold found in Hlen, Hch, Hnd, Hfree, Hsub.
      destruct (nonempty_head found ltac:(lia)) as [first Hfirst].
      rewrite (assignTaskToSlots_head t found st first Hfirst). simpl.
      exists found, tk, d. repeat split; try assumption.
      * exists tk, first. repeat split; assumption.
      * rewrite Forall_forall. intros r Hr. apply Hsub in Hr.
        apply filter_In in Hr. destruct Hr as [_ Hr].
        apply andb_true_iff in Hr. now apply Z.leb_le.
Qed.





(** *** Effects of a placement *)

Section PlacementEffects.

Variables (t : TaskRef) (found : list SlotRef) (st st' : RunState).
Hypothesis placed : placedOn t found st st'.


Lemma placedOn_keeps_assigned j s v :
  nth_error (availableSlots st) j = Some s -> task s = Some v ->
  nth_error (availableSlots st') j = Some s.
Proof.
  destruct placed as (tk & first & _ & _ & _ & _ & _ & Hfree & ->).
  now apply markSlots_keeps_assigned.
Qed.

Lemma placedOn_occupied t' :
  occupied t' (availableSlots st')
  = if (t =? t')%nat
    then (occupied t' (availableSlots st) + length found)%nat
    else occupied t' (availableSlots st).
Proof.
  destruct placed as (tk & first & _ & _ & _ & _ & Hnd & Hfree & ->).
  now apply occupied_markSlots.
Qed.

Lemma placedOn_other_task i :
  i <> t -> nth_error (sortedTasks st') i = nth_error (sortedTasks st) i.
Proof.
  destruct placed as (tk & first & _ & _ & _ & _ & _ & _ & ->).
  intros Hne. cbn [sortedTasks]. rewrite nth_error_updateAt.
  destruct (Nat.eqb_spec i t); [contradiction|reflexivity].
Qed.

Lemma placedOn_length :
  length (sortedTasks st') = length (sortedTasks st).
Proof.
  destruct placed as (tk & first & _ & _ & _ & _ & _ & _ & ->).
  apply updateAt_length.
Qed.

(** The task placed has its scheduled time set to the start of a slot that
    now is its own; nothing else of it changes. *)
Lemma placedOn_this_task :
  exists tk j s,
    nth_error (sortedTasks st) t = Some tk /\
    nth_error (sortedTasks st') t = Some (setScheduledTime (startTime s) tk) /\
    nth_error (availableSlots st') j = Some s /\ task s = Some t /\
    Z.of_nat (length found) = ceilDiv (timeEstimate tk) 30.
Proof.
  destruct placed as (tk & first & Htk & Hhd & Hlen & _ & _ & Hfree & ->).
  exists tk, (addr first), (setTask t (slotOf first)).
  repeat split; try assumption.
  - cbn [sortedTasks]. now rewrite nth_error_updateAt, Nat.eqb_refl, Htk.
  - cbn [availableSlots]. apply markSlots_marks; [exact Hfree|].
    destruct found; simpl in Hhd; [discriminate|].
    inversion Hhd. now left.
Qed.

End PlacementEffects.

(** ** The steps of a run *)

(** A step leaves the state as it is or places the task it is at; the
    second pass places only a task without scheduled time. *)
Lemma runStep_outcome s st st' :
  runStep s st = Ok st' ->
  st' = st \/
  exists t found tk,
    placedOn t found st st' /\ nth_error (sortedTasks st) t = Some tk /\
    (s = FirstPass t \/ (s = SecondPass t /\ scheduledTime tk = None)).
Proof.
  destruct s as [t|t]; unfold runStep;
    destruct (nth_error (sortedTasks st) t) as [tk|] eqn:Htk;
    try discriminate.
  - destruct (deadline tk); [|intros H; inversion H; now left].
    pose proof (scheduleTaskWithDeadline_outcome t st) as Hout.
    destruct (scheduleTaskWithDeadline t st) as [[[|] st1]|e];
      simpl; intros H; inversion H; subst.
    + destruct Hout as (found & tk1 & d & Hplaced & _).
      right. exists t, found, tk. auto.
    + now left.
  - destruct (scheduledTime tk) eqn:Hsched; [intros H; inversion H; now left|].
    pose proof (scheduleTaskAnywhere_outcome t st) as Hout.
    destruct (scheduleTaskAnywhere t st) as [[[|] st1]|e];
      simpl; intros H; inversion H; subst.
    + destruct Hout as (found & Hplaced).
      right. exists t, found, tk. auto.
    + now left.
Qed.

Lemma runSteps_app steps1 : forall steps2 st st',
  runSteps (steps1 ++ steps2) st = Ok st' ->
  exists mid, runSteps steps1 st = Ok mid /\ runSteps steps2 mid = Ok st'.
Proof.
  induction steps1 as [|s steps1 IH]; intros steps2 st st' Hrun.
  - exists st. split; [reflexivity|exact Hrun].
  - simpl in Hrun |- *. destruct (runStep s st) as [st1|e]; simpl in *.
    + now apply IH.
    + discriminate.
Qed.

(** No step takes a slot from the task it is assigned to, and the grid
    keeps its intervals. *)
Lemma runSteps_keep_assigned steps : forall st st' j s v,
  runSteps steps st = Ok st' ->
  nth_error (availableSlots st) j = Some s -> task s = Some v ->
  nth_error (availableSlots st') j = Some s.
Proof.
  induction steps as [|x steps IH]; intros st st' j s v Hrun Hj Hv;
    simpl in Hrun.
  - inversion Hrun; now subst.
  - destruct (runStep x st) as [st1|e] eqn:Hstep; simpl in Hrun;
      [|discriminate].
    apply (IH st1 st' j s v Hrun); [|exact Hv].
    destruct (runStep_outcome _ _ _ Hstep)
      as [->|(t & found & tk & Hplaced & _)]; [exact Hj|].
    now apply (placedOn_keeps_assigned t found st st1 Hplaced j s v).
Qed.


(** *** The order of the steps *)

Lemma placementSteps_NoDup n : NoDup (placementSteps n).
Proof.
  unfold placementSteps. apply NoDup_app.
  - apply Finite.Injective_map_NoDup; [|apply seq_NoDup].
    intros x y H. now inversion H.
  - apply Finite.Injective_map_NoDup; [|apply seq_NoDup].
    intros x y H. now inversion H.
  - intros s H1 H2. apply in_map_iff in H1. apply in_map_iff in H2.
    destruct H1 as (x & <- & _). destruct H2 as (y & Hy & _). discriminate.
Qed.

(** Whatever follows a step of the second pass belongs to the second
    pass. *)
Lemma after_second_pass l1 : forall firsts seconds t l2,
  map FirstPass firsts ++ map SecondPass seconds
  = l1 ++ SecondPass t :: l2 ->
  forall t', ~ In (FirstPass t') l2.
Proof.
  induction l1 as [|x l1 IH]; intros firsts seconds t l2 Heq t' Hin.
  - destruct firsts as [|f firsts]; simpl in Heq; [|discriminate].
    assert (Hall : In (FirstPass t') (map SecondPass seconds)).
    { rewrite Heq. now right. }
    apply in_map_iff in Hall. destruct Hall as (y & Hy & _). discriminate.
  - destruct firsts as [|f firsts]; simpl in Heq.
    + assert (Hall : In (FirstPass t') (map SecondPass seconds)).
      { rewrite Heq. right. apply in_or_app. right. now right. }
      apply in_map_iff in Hall. destruct Hall as (y & Hy & _). discriminate.
    + inversion Heq as [[Hx Hrest]].
      exact (IH firsts seconds t l2 Hrest t' Hin).
Qed.

(** A task with a scheduled time stays as it is through steps among which
    its own turn of the first pass does not occur. *)
Lemma runSteps_keep_scheduled steps : forall st st' i tk,
  ~ In (FirstPass i) steps ->
  nth_error (sortedTasks st) i = Some tk ->
  scheduledTime tk <> None ->
  runSteps steps st = Ok st' ->
  nth_error (sortedTasks st') i = Some tk.
Proof.
  induction steps as [|x steps IH]; intros st st' i tk Hnot Hi Hsched Hrun;
    simpl in Hrun.
  - inversion Hrun; now subst.
  - destruct (runStep x st) as [st1|e] eqn:Hstep; simpl in Hrun;
      [|discriminate].
    apply (IH st1 st' i tk); try assumption.
    + intros Hin. apply Hnot. now right.
    + destruct (runStep_outcome _ _ _ Hstep)
        as [->|(t & found & tk' & Hplaced & Htk' & Hwhich)]; [exact Hi|].
      destruct (Nat.eq_dec i t) as [->|Hne].
      * exfalso. rewrite Hi in Htk'. inversion Htk'; subst tk'.
        destruct Hwhich as [->|[_ Hnone]]; [|contradiction].
        apply Hnot. now left.
      * now rewrite (placedOn_other_task t found st st1 Hplaced i Hne).
Qed.

(** C4.  Cut the run at any step and at any later point: a slot that is
    assigned after the step is assigned to the same task at the later point,
    and a scheduled time that the step has set is the same at the later
    point. *)
Theorem placements_are_final :
  forall settings now tasks startDate daysToSchedule
         before step mid rest sa sb sc,
    let init := initialRun settings now tasks startDate daysToSchedule in
    placementSteps (length (sortedTasks init))
    = before ++ step :: mid ++ rest ->
    runSteps before init = Ok sa ->
    runStep step sa = Ok sb ->
    runSteps mid sb = Ok sc ->
    (forall j s v,
        nth_error (availableSlots sb) j = Some s -> task s = Some v ->
        nth_error (availableSlots sc) j = Some s) /\
    (forall i tka tkb,
        nth_error (sortedTasks sa) i = Some tka ->
        nth_error (sortedTasks sb) i = Some tkb ->
        scheduledTime tkb <> scheduledTime tka ->
        nth_error (sortedTasks sc) i = Some tkb).
Proof.
  intros settings now tasks startDate days before step mid rest sa sb sc
    init Hcut Hbefore Hstep Hmid.
  split.
  - intros j s v Hj Hv. exact (runSteps_keep_assigned mid sb sc j s v Hmid Hj Hv).
  - intros i tka tkb Ha Hb Hchanged.
    destruct (runStep_outcome _ _ _ Hstep)
      as [->|(t & found & tk & Hplaced & Htk & Hwhich)].
    { rewrite Ha in Hb. inversion Hb; subst. contradiction. }
    destruct (Nat.eq_dec i t) as [->|Hne].
    2:{ rewrite (placedOn_other_task t found sa sb Hplaced i Hne), Ha in Hb.
        inversion Hb; subst. contradiction. }
    destruct (placedOn_this_task t found sa sb Hplaced)
      as (tk1 & j & s & Htk1 & Hnew & _).
    rewrite Hb in Hnew. inversion Hnew; subst tkb. clear Hnew.
    apply (runSteps_keep_scheduled mid sb sc t _); try assumption.
    + destruct Hwhich as [->|[-> _]].
      * pose proof (placementSteps_NoDup (length (sortedTasks init))) as Hnd.
        rewrite Hcut in Hnd. apply NoDup_remove_2 in Hnd.
        intros Hin. apply Hnd. apply in_or_app. right.
        apply in_or_app. now left.
      * intros Hin.
        apply (after_second_pass before _ _ t (mid ++ rest) Hcut t).
        apply in_or_app. now left.
    + discriminate.
Qed.

(** *** What the two passes keep *)

Section Passes.

Variable tasks0 : list Task.

Lemma untouched_settled st i :
  (i < length tasks0)%nat -> untouched tasks0 st i -> settled tasks0 st i.
Proof.
  intros Hi [Hsame Hnone].
  destruct (nth_error tasks0 i) as [tk0|] eqn:Htk0.
  - exists tk0, tk0. repeat split; try assumption. now left.
  - apply nth_error_None in Htk0. lia.
Qed.

Lemma settled_other t found st st' i :
  placedOn t found st st' -> i <> t ->
  settled tasks0 st i -> settled tasks0 st' i.
Proof.
  intros Hplaced Hne (tk0 & tk & Htk0 & Htk & Hte & Hcase).
  exists tk0, tk. split; [exact Htk0|]. split.
  { now rewrite (placedOn_other_task t found st st' Hplaced i Hne). }
  split; [exact Hte|].
  rewrite (placedOn_occupied t found st st' Hplaced i).
  destruct (Nat.eqb_spec t i) as [Heq|_]; [congruence|].
  destruct Hcase as [Hidle|(Hcount & j & s & Hj & Hs & Hsched)];
    [now left|right].
  split; [exact Hcount|]. exists j, s. repeat split; try assumption.
  exact (placedOn_keeps_assigned t found st st' Hplaced j s i Hj Hs).
Qed.

Lemma untouched_other t found st st' i :
  placedOn t found st st' -> i <> t ->
  untouched tasks0 st i -> untouched tasks0 st' i.
Proof.
  intros Hplaced Hne [Hsame Hnone]. split.
  - now rewrite (placedOn_other_task t found st st' Hplaced i Hne).
  - rewrite (placedOn_occupied t found st st' Hplaced i).
    destruct (Nat.eqb_spec t i) as [Heq|_]; [congruence|exact Hnone].
Qed.

Lemma placed_settles t found st st' tk0 tk :
  placedOn t found st st' ->
  nth_error tasks0 t = Some tk0 ->
  nth_error (sortedTasks st) t = Some tk ->
  timeEstimate tk = timeEstimate tk0 ->
  occupied t (availableSlots st) = 0%nat ->
  settled tasks0 st' t.
Proof.
  intros Hplaced Htk0 Htk Hte Hnone.
  destruct (placedOn_this_task t found st st' Hplaced)
    as (tk1 & j & s & Htk1 & Hnew & Hj & Hs & Hlen).
  rewrite Htk in Htk1. inversion Htk1; subst tk1. clear Htk1.
  exists tk0, (setScheduledTime (startTime s) tk).
  repeat split; try assumption.
  right. split.
  - rewrite (placedOn_occupied t found st st' Hplaced t), Nat.eqb_refl.
    rewrite Hnone. simpl. exact Hlen.
  - exists j, s. repeat split; assumption.
Qed.

(** The first pass, from its turn [k] on, for [m] turns. *)
Lemma firstPass_settles m : forall k st st',
  runSteps (map FirstPass (seq k m)) st = Ok st' ->
  (forall i, (i < k)%nat -> (i < length tasks0)%nat ->
             settled tasks0 st i) ->
  (forall i, (k <= i)%nat -> (i < length tasks0)%nat ->
             untouched tasks0 st i) ->
  (forall i, (i < k + m)%nat -> (i < length tasks0)%nat ->
             settled tasks0 st' i) /\
  (forall i, (k + m <= i)%nat -> (i < length tasks0)%nat ->
             untouched tasks0 st' i).
Proof.
  induction m as [|m IH]; intros k st st' Hrun Hdone Htodo.
  - simpl in Hrun. inversion Hrun; subst st'.
    rewrite Nat.add_0_r. split; assumption.
  - cbn [seq map runSteps] in Hrun.
    destruct (runStep (FirstPass k) st) as [st1|e] eqn:Hstep;
      simpl in Hrun; [|discriminate].
    replace (k + S m)%nat with (S k + m)%nat by lia.
    apply (IH (S k) st1 st' Hrun).
    + intros i Hik Hin.
      destruct (runStep_outcome _ _ _ Hstep)
        as [->|(t & found & tk & Hplaced & Htk & Hwhich)].
      * destruct (Nat.eq_dec i k) as [->|Hne].
        -- apply untouched_settled; [exact Hin|]. apply Htodo; lia.
        -- apply Hdone; lia.
      * destruct Hwhich as [Heq|[Heq _]]; [|discriminate].
        inversion Heq; subst t.
        destruct (Nat.eq_dec i k) as [->|Hne].
        -- destruct (Htodo k (Nat.le_refl k) Hin) as [Hsame Hnone].
           rewrite Htk in Hsame.
           apply (placed_settles k found st st1 tk tk); auto.
        -- apply (settled_other k found st st1); auto. apply Hdone; lia.
    + intros i Hki Hin.
      destruct (runStep_outcome _ _ _ Hstep)
        as [->|(t & found & tk & Hplaced & Htk & Hwhich)].
      * apply Htodo; lia.
      * destruct Hwhich as [Heq|[Heq _]]; [|discriminate].
        inversion Heq; subst t.
        apply (untouched_other k found st st1); auto; try lia.
        apply Htodo; lia.
Qed.

(** The second pass. *)
Lemma secondPass_settles refs : forall st st',
  runSteps (map SecondPass refs) st = Ok st' ->
  (forall i, (i < length tasks0)%nat -> settled tasks0 st i) ->
  (forall i, (i < length tasks0)%nat -> settled tasks0 st' i).
Proof.
  induction refs as [|r refs IH]; intros st st' Hrun Hall.
  - simpl in Hrun. inversion Hrun; now subst.
  - cbn [map runSteps] in Hrun.
    destruct (runStep (SecondPass r) st) as [st1|e] eqn:Hstep;
      simpl in Hrun; [|discriminate].
    apply (IH st1 st' Hrun). intros i Hin.
    destruct (runStep_outcome _ _ _ Hstep)
      as [->|(t & found & tk & Hplaced & Htk & Hwhich)]; [now apply Hall|].
    destruct Hwhich as [Heq|[Heq Hunset]]; [discriminate|].
    inversion Heq; subst t.
    destruct (Nat.eq_dec i r) as [->|Hne].
    + destruct (Hall r Hin) as (tk0 & tk' & Htk0 & Htk' & Hte & Hcase).
      rewrite Htk in Htk'. inversion Htk'; subst tk'.
      destruct Hcase as [[_ Hnone]|(_ & j & s & _ & _ & Hsched)];
        [|congruence].
      apply (placed_settles r found st st1 tk0 tk); auto.
    + apply (settled_other r found st st1); auto.
Qed.

End Passes.

Lemma occupied_free t slots :
  Forall (fun s => task s = None) slots -> occupied t slots = 0%nat.
Proof.
  unfold occupied. induction 1 as [|s slots Hs _ IH]; [reflexivity|].
  simpl. unfold holds at 1. now rewrite Hs.
Qed.

(** After a run that has come to its end every task is settled. *)
Lemma scheduleTasksRun_settles settings now tasks startDate days final :
  scheduleTasksRun settings now tasks startDate days = Ok final ->
  forall i,
    (i < length (sortTasksByPriority now tasks))%nat ->
    settled (sortTasksByPriority now tasks) final i.
Proof.
  unfold scheduleTasksRun, placementSteps. intros Hrun.
  set (init := initialRun settings now tasks startDate days) in *.
  change (sortedTasks init) with (sortTasksByPriority now tasks) in Hrun.
  set (tasks0 := sortTasksByPriority now tasks) in *.
  apply runSteps_app in Hrun. destruct Hrun as (mid & Hfirst & Hsecond).
  apply (secondPass_settles tasks0 _ mid final Hsecond).
  destruct (firstPass_settles tasks0 (length tasks0) 0 init mid Hfirst)
    as [Hall _].
  - intros i Hi. lia.
  - intros i _ Hi. split; [reflexivity|].
    apply occupied_free. rewrite Forall_forall. intros s Hs.
    now apply generateTimeSlots_sound in Hs.
  - intros i Hi. now apply Hall.
Qed.

(** C3.  Along a run no slot is assigned first to one task and later to
    another, and when the run is over every task either holds no slot and
    has the scheduled time it came with, or holds exactly
    ceil(timeEstimate / 30) slots and has the start of one of them as its
    scheduled time. *)
Theorem placement_conservation :
  forall settings now tasks startDate daysToSchedule final,
    let init := initialRun settings now tasks startDate daysToSchedule in
    scheduleTasksRun settings now tasks startDate daysToSchedule = Ok final ->
    (forall before mid rest s1 s2 j x1 x2 a b,
        placementSteps (length (sortedTasks init)) = before ++ mid ++ rest ->
        runSteps before init = Ok s1 ->
        runSteps mid s1 = Ok s2 ->
        nth_error (availableSlots s1) j = Some x1 -> task x1 = Some a ->
        nth_error (availableSlots s2) j = Some x2 -> task x2 = Some b ->
        a = b) /\
    (forall i tk0 tk,
        nth_error (sortedTasks init) i = Some tk0 ->
        nth_error (sortedTasks final) i = Some tk ->
        (scheduledTime tk = scheduledTime tk0 /\
         occupied i (availableSlots final) = 0%nat) \/
        (Z.of_nat (occupied i (availableSlots final))
         = ceilDiv (timeEstimate tk0) 30 /\
         exists j s,
           nth_error (availableSlots final) j = Some s /\
           task s = Some i /\
           scheduledTime tk = Some (startTime s))).
Proof.
  intros settings now tasks startDate days final init Hrun. split.
  - intros before mid rest s1 s2 j x1 x2 a b _ _ Hmid Hx1 Ha Hx2 Hb.
    rewrite (runSteps_keep_assigned mid s1 s2 j x1 a Hmid Hx1 Ha) in Hx2.
    inversion Hx2; subst x2. congruence.
  - intros i tk0 tk Htk0 Htk.
    assert (Hi : (i < length (sortTasksByPriority now tasks))%nat).
    { apply nth_error_Some. unfold init, initialRun in Htk0.
      cbn [sortedTasks] in Htk0. congruence. }
    destruct (scheduleTasksRun_settles settings now tasks startDate days
                final Hrun i Hi)
      as (tk0' & tk' & Htk0' & Htk' & Hte & Hcase).
    unfold init, initialRun in Htk0. cbn [sortedTasks] in Htk0.
    rewrite Htk0 in Htk0'. inversion Htk0'; subst tk0'.
    rewrite Htk in Htk'. inversion Htk'; subst tk'.
    rewrite <- Hte. exact Hcase.
Qed.

(** ** Degenerate inputs *)

(** A time estimate of zero minutes or less asks for no slot; the finder
    then returns nothing, the length test passes, and
    [assignTaskToSlots] reads [slots[0]] of an empty array. *)
Lemma scheduleTaskAnywhere_nonpos_throws t st tk :
  nth_error (sortedTasks st) t = Some tk ->
  timeEstimate tk <= 0 ->
  scheduleTaskAnywhere t st = Error TypeError.
Proof.
  intros Htk Hte. unfold scheduleTaskAnywhere. rewrite Htk.
  assert (Hn : ceilDiv (timeEstimate tk) 30 <= 0)
    by (pose proof (ceilDiv_spec (timeEstimate tk)); lia).
  rewrite findConsecutiveSlots_nonpos by exact Hn.
  cbn [length Z.of_nat].
  destruct (Z.geb_spec 0 (ceilDiv (timeEstimate tk) 30)); [reflexivity|lia].
Qed.

(** On an empty grid a step changes nothing, as long as the task it is at
    has a positive time estimate. *)
Lemma runStep_empty_grid s tasks :
  Forall (fun tk => 0 < timeEstimate tk) tasks ->
  (match s with FirstPass t | SecondPass t => t < length tasks end)%nat ->
  runStep s (mkRun tasks []) = Ok (mkRun tasks []).
Proof.
  intros Hpos Hin. rewrite Forall_forall in Hpos.
  destruct s as [t|t]; unfold runStep; cbn [sortedTasks];
    destruct (nth_error tasks t) as [tk|] eqn:Htk;
    try (apply nth_error_None in Htk; lia).
  - destruct (deadline tk) as [d|] eqn:Hd; [|reflexivity].
    unfold scheduleTaskWithDeadline. cbn [sortedTasks availableSlots].
    rewrite Htk, Hd. reflexivity.
  - destruct (scheduledTime tk); [reflexivity|].
    unfold scheduleTaskAnywhere. cbn [sortedTasks availableSlots].
    rewrite Htk. cbn.
    pose proof (Hpos tk (nth_error_In _ _ Htk)) as Hte.
    pose proof (ceilDiv_spec (timeEstimate tk)) as Hceil.
    destruct (Z.geb_spec 0 (ceilDiv (timeEstimate tk) 30)); [lia|].
    reflexivity.
Qed.

Lemma runSteps_empty_grid steps tasks :
  Forall (fun tk => 0 < timeEstimate tk) tasks ->
  Forall (fun s => match s with FirstPass t | SecondPass t =>
                     (t < length tasks)%nat end) steps ->
  runSteps steps (mkRun tasks []) = Ok (mkRun tasks []).
Proof.
  intros Hpos. induction 1 as [|s steps Hs _ IH]; [reflexivity|].
  cbn [runSteps]. rewrite (runStep_empty_grid s tasks Hpos Hs). exact IH.
Qed.

(** With positive time estimates, an empty grid makes [scheduleTasks]
    return the ranked tasks as they came. *)
Lemma scheduleTasks_empty_grid settings now tasks startDate days :
  generateTimeSlots settings startDate days = [] ->
  Forall (fun tk => 0 < timeEstimate tk) tasks ->
  scheduleTasks settings now tasks startDate days
  = Ok (sortTasksByPriority now tasks).
Proof.
  intros Hgrid Hpos.
  unfold scheduleTasks, scheduleTasksRun, initialRun. rewrite Hgrid.
  cbn [sortedTasks]. rewrite runSteps_empty_grid; [reflexivity| |].
  - rewrite Forall_forall in *. intros tk Hin. apply Hpos.
    unfold sortTasksByPriority in Hin.
    exact (Permutation_in _ (Permutation_sym (arraySort_perm _ _)) Hin).
  - unfold placementSteps. apply Forall_app.
    split; rewrite Forall_forall; intros s Hs; apply in_map_iff in Hs;
      destruct Hs as (i & <- & Hi); apply in_seq in Hi; lia.
Qed.

(** Without tasks, [scheduleTasks] returns the empty list on every grid. *)
Lemma scheduleTasks_no_tasks settings now startDate days :
  scheduleTasks settings now [] startDate days = Ok [].
Proof. reflexivity. Qed.

(** A lone task without deadline, not yet scheduled, with a time estimate of
    zero minutes or less: [scheduleTasks] throws on every grid. *)
Lemma scheduleTasks_nonpos_estimate_throws settings now startDate days p te :
  te <= 0 ->
  scheduleTasks settings now [mkTask p te None None] startDate days
  = Error TypeError.
Proof.
  intros Hte. unfold scheduleTasks, scheduleTasksRun, initialRun.
  cbn [sortTasksByPriority arraySort fold_right insertSorted sortedTasks
       length placementSteps seq map app runSteps runStep nth_error
       deadline scheduledTime bind].
  rewrite (scheduleTaskAnywhere_nonpos_throws 0%nat _
             (mkTask p te None None)); [reflexivity|reflexivity|exact Hte].
Qed.

(** C8.  On the empty grid that settings without working days give, a task
    with a time estimate of 0 minutes (the line [- [ ] x #time/0m]) makes
    [scheduleTasks] throw instead of returning without placement. *)
Theorem scheduleTasks_zero_estimate_throws :
  scheduleTasks (mkSettings (9, 0) (17, 0) []) 0
                [mkTask 3 0 None None] 0 14
  = Error TypeError.
Proof. vm_compute. reflexivity. Qed.

(** ** The properties at work on a small run *)


Lemma findConsecutiveSlots_contract_witness :
  0 < 2 /\
  let found := findConsecutiveSlots Example.twoSlots 2 in
  found = [] \/
  (Z.of_nat (length found) = 2 /\
   Forall (fun s => task (slotOf s) = None) found /\
   contiguous found).
Proof.
  split; [reflexivity|].
  apply (findConsecutiveSlots_contract Example.twoSlots 2).
  reflexivity.
Defined.

Lemma placement_conservation_witness :
  scheduleTasksRun Example.settings Example.monday [Example.report]
    Example.monday 1 = Ok Example.placed /\
  ((scheduledTime Example.scheduled = scheduledTime Example.report /\
    occupied 0%nat (availableSlots Example.placed) = 0%nat) \/
   (Z.of_nat (occupied 0%nat (availableSlots Example.placed))
    = ceilDiv (timeEstimate Example.report) 30 /\
    exists j s,
      nth_error (availableSlots Example.placed) j = Some s /\
      task s = Some 0%nat /\
      scheduledTime Example.scheduled = Some (startTime s))).
Proof.
  split; [vm_compute; reflexivity|].
  apply (proj2 (placement_conservation
                  Example.settings Example.monday [Example.report]
                  Example.monday 1 Example.placed
                  ltac:(vm_compute; reflexivity))
           0%nat Example.report Example.scheduled).
  - reflexivity.
  - vm_compute. reflexivity.
Defined.

Lemma placements_are_final_witness :
  placementSteps (length (sortedTasks Example.init))
  = [] ++ FirstPass 0%nat :: [SecondPass 0%nat] ++ [] /\
  runSteps [] Example.init = Ok Example.init /\
  runStep (FirstPass 0%nat) Example.init = Ok Example.placed /\
  runSteps [SecondPass 0%nat] Example.placed = Ok Example.placed /\
  (forall j s v,
      nth_error (availableSlots Example.placed) j = Some s ->
      task s = Some v ->
      nth_error (availableSlots Example.placed) j = Some s) /\
  (forall i tka tkb,
      nth_error (sortedTasks Example.init) i = Some tka ->
      nth_error (sortedTasks Example.placed) i = Some tkb ->
      scheduledTime tkb <> scheduledTime tka ->
      nth_error (sortedTasks Example.placed) i = Some tkb).
Proof.
  split; [reflexivity|]. split; [reflexivity|].
  split; [vm_compute; reflexivity|]. split; [vm_compute; reflexivity|].
  apply (placements_are_final
           Example.settings Example.monday [Example.report] Example.monday 1
           [] (FirstPass 0%nat) [SecondPass 0%nat] []
           Example.init Example.placed Example.placed).
  - reflexivity.
  - reflexivity.
  - vm_compute. reflexivity.
  - vm_compute. reflexivity.
Defined.

Lemma urgent_before_undated_witness :
  compareTasks Example.monday Example.report Example.undated < 0 /\
  precedes Example.report Example.undated
    (sortTasksByPriority Example.monday [Example.undated; Example.report]).
Proof.
  destruct (urgent_before_undated
              Example.monday Example.report Example.undated
              (Example.monday + 12 * JsDate.msPerHour))
    as (Hlt & _ & Hlist).
  - reflexivity.
  - reflexivity.
  - reflexivity.
  - split; [exact Hlt|]. apply Hlist; simpl; auto.
Defined.

Lemma overdue_is_urgent_not_due_soon_witness :
  isUrgent Example.monday Example.overdue = true /\
  isDueSoon Example.monday Example.overdue = false /\
  compareTasks Example.monday Example.overdue Example.undated < 0.
Proof.
  destruct (overdue_is_urgent_not_due_soon
              Example.monday Example.overdue
              (Example.monday - 5 * JsDate.msPerDay))
    as (Hurgent & Hsoon & Hfirst).
  - reflexivity.
  - reflexivity.
  - split; [exact Hurgent|]. split; [exact Hsoon|].
    apply (Hfirst Example.undated). reflexivity.
Defined.

(** ** Scenarios *)

(** Hours 09:00-17:00, Monday to Friday; one task of priority 1 and 60
    minutes due at noon of the next day, a Monday: it is scheduled at 09:00
    of that day, on 2 slots. *)
Example scenario_first_block_before_deadline :
  let sunday := Example.monday - JsDate.msPerDay in
  exists final,
    scheduleTasksRun Example.settings sunday [Example.report] sunday 14
    = Ok final /\
    map scheduledTime (sortedTasks final)
    = [Some (Example.monday + 9 * JsDate.msPerHour)] /\
    occupied 0%nat (availableSlots final) = 2%nat.
Proof. eexists. repeat split; vm_compute; reflexivity. Qed.

(** Two tasks without deadline, alike but for the priority: the one of
    priority 1 is scheduled strictly before the one of priority 5. *)
Example scenario_priority_first :
  scheduleTasks Example.settings Example.monday
    [mkTask 5 60 None None; mkTask 1 60 None None] Example.monday 14
  = Ok [mkTask 1 60 None (Some (Example.monday + 9 * JsDate.msPerHour));
        mkTask 5 60 None (Some (Example.monday + 10 * JsDate.msPerHour))].
Proof. vm_compute. reflexivity. Qed.

(** A task of 90 minutes, with two free slots of 30 minutes on both sides
    of an assigned one: it stays unscheduled. *)
Example scenario_fragmented_grid :
  let st := mkRun [mkTask 1 90 None None]
                  [mkSlot 0 1800000 None;
                   mkSlot 1800000 3600000 (Some 7%nat);
                   mkSlot 3600000 5400000 None] in
  scheduleTaskAnywhere 0%nat st = Ok (false, st).
Proof. vm_compute. reflexivity. Qed.

(* ================================================================== *)
(** * Further properties of the scheduler *)

(** ** The grid in time *)







(** The first slot of a working day is there as soon as the working hours
    hold one slot. *)
Lemma slotLoop_nonempty fuel slotStart dayEnd :
  slotStart + slotMs <= dayEnd ->
  slotLoop (S fuel) slotStart dayEnd <> [].
Proof.
  intros Hfit. cbn [slotLoop].
  assert (Hw : 0 < slotMs) by reflexivity.
  destruct (Z.ltb_spec slotStart dayEnd); [|lia].
  change (JsDate.addMinutes slotStart slotDuration) with (slotStart + slotMs).
  destruct (Z.leb_spec (slotStart + slotMs) dayEnd); [|lia].
  discriminate.
Qed.

Lemma slotLoop_too_short fuel slotStart dayEnd :
  dayEnd < slotStart + slotMs ->
  slotLoop fuel slotStart dayEnd = [].
Proof.
  intros Hshort. destruct fuel as [|fuel]; [reflexivity|]. cbn [slotLoop].
  destruct (Z.ltb_spec slotStart dayEnd); [|reflexivity].
  change (JsDate.addMinutes slotStart slotDuration) with (slotStart + slotMs).
  destruct (Z.leb_spec (slotStart + slotMs) dayEnd); [lia|].
  simpl. apply slotLoop_done. lia.
Qed.

Lemma setHours_minutes d hm :
  JsDate.setHours d (fst hm) (snd hm)
  = JsDate.startOfDay d + minutesOf hm * JsDate.msPerMinute.
Proof.
  unfold JsDate.setHours, minutesOf, JsDate.msPerHour, JsDate.msPerMinute.
  lia.
Qed.

(** The slots of one day: none unless the day is a working day and the
    working hours hold a whole slot. *)
Lemma daySlots_empty_iff settings currentDate :
  daySlots settings currentDate = [] <->
  includes (workingDays settings) (JsDate.getDay currentDate) = false \/
  minutesOf (workingHoursEnd settings)
  < minutesOf (workingHoursStart settings) + slotDuration.
Proof.
  unfold daySlots.
  destruct (includes _ _); [|split; auto].
  pose proof (setHours_minutes currentDate (workingHoursStart settings)) as Hs.
  pose proof (setHours_minutes currentDate (workingHoursEnd settings)) as He.
  destruct (workingHoursStart settings) as [sh sm].
  destruct (workingHoursEnd settings) as [eh em].
  cbn [fst snd] in Hs, He. rewrite Hs, He.
  set (a := minutesOf (sh, sm)). set (b := minutesOf (eh, em)).
  destruct (Z.lt_ge_cases b (a + slotDuration)) as [Hshort|Hfit].
  - split; [auto|]. intros _. apply slotLoop_too_short.
    unfold slotMs, slotDuration, JsDate.msPerMinute in *. lia.
  - split.
    + intros Hnil. exfalso. revert Hnil. unfold slotLoopFuel.
      apply slotLoop_nonempty.
      unfold slotMs, slotDuration, JsDate.msPerMinute in *. lia.
    + intros [H|H]; [discriminate|lia].
Qed.

Lemma dayLoop_empty_iff settings days : forall currentDate,
  dayLoop settings days currentDate = [] <->
  forall j, (j < days)%nat ->
    daySlots settings (JsDate.addDays currentDate (Z.of_nat j)) = [].
Proof.
  induction days as [|days IH]; intros c; simpl.
  - split; [intros _ j Hj; lia|reflexivity].
  - split.
    + intros Hnil. apply app_eq_nil in Hnil. destruct Hnil as [H0 Hrest].
      intros [|j] Hj.
      * unfold JsDate.addDays. simpl. now rewrite Z.add_0_r.
      * rewrite IH in Hrest. specialize (Hrest j ltac:(lia)).
        unfold JsDate.addDays in *.
        replace (c + Z.of_nat (S j) * JsDate.msPerDay)
          with (c + 1 * JsDate.msPerDay + Z.of_nat j * JsDate.msPerDay)
          by lia.
        exact Hrest.
    + intros Hall.
      assert (H0 : daySlots settings c = []).
      { specialize (Hall 0%nat ltac:(lia)). unfold JsDate.addDays in Hall.
        simpl in Hall. now rewrite Z.add_0_r in Hall. }
      rewrite H0. simpl. apply IH. intros j Hj.
      specialize (Hall (S j) ltac:(lia)). unfold JsDate.addDays in *.
      replace (c + 1 * JsDate.msPerDay + Z.of_nat j * JsDate.msPerDay)
        with (c + Z.of_nat (S j) * JsDate.msPerDay) by lia.
      exact Hall.
Qed.

(** On local times: the grid is empty exactly when the working hours are
    shorter than one slot of 30 minutes or no day of the horizon falls on
    a working day. *)
Lemma generateTimeSlots_nil_iff :
  forall settings startDate daysToSchedule,
    generateTimeSlots settings startDate daysToSchedule = [] <->
    minutesOf (workingHoursEnd settings)
    < minutesOf (workingHoursStart settings) + slotDuration \/
    forall d, 0 <= d < daysToSchedule ->
      includes (workingDays settings)
        (JsDate.getDay (JsDate.addDays (JsDate.startOfDay startDate) d))
      = false.
Proof.
  intros settings startDate days. unfold generateTimeSlots.
  replace (JsDate.setHours startDate 0 0) with (JsDate.startOfDay startDate)
    by (unfold JsDate.setHours; lia).
  rewrite dayLoop_empty_iff. split.
  - intros Hall.
    destruct (Z.lt_ge_cases (minutesOf (workingHoursEnd settings))
                (minutesOf (workingHoursStart settings) + slotDuration))
      as [Hshort|Hfit]; [now left|right].
    intros d Hd. specialize (Hall (Z.to_nat d) ltac:(lia)).
    rewrite Z2Nat.id in Hall by lia.
    apply daySlots_empty_iff in Hall. destruct Hall as [H|H]; [exact H|lia].
  - intros Hcase j Hj. apply daySlots_empty_iff.
    destruct Hcase as [Hshort|Hnone]; [now right|left].
    apply Hnone. lia.
Qed.

(** ** The finder misses no run *)

Lemma last_error_app {A : Type} (l1 l2 : list A) :
  l2 <> [] -> last_error (l1 ++ l2) = last_error l2.
Proof.
  intros Hne. induction l1 as [|x l1 IH]; [reflexivity|].
  simpl. rewrite IH. destruct (l1 ++ l2) eqn:E; [|reflexivity].
  apply app_eq_nil in E. tauto.
Qed.

(** In a chain the last slot of a front part ends where the slot after it
    begins. *)
Lemma chained_joint l1 : forall s l2 z,
  chained (l1 ++ s :: l2) -> last_error l1 = Some z ->
  endTime (slotOf z) = startTime (slotOf s).
Proof.
  induction l1 as [|a [|b l1] IH]; intros s l2 z Hc Hz.
  - discriminate.
  - simpl in Hz. inversion Hz; subst. now destruct Hc.
  - destruct Hc as [_ Hc]. exact (IH s l2 z Hc Hz).
Qed.

(** A run does not reach across a break: when the chain gathered so far is
    too short and the next free slot does not continue it, a run of the list
    lies in what begins with that slot. *)
Lemma run_after_break cs s rest n z :
  Z.of_nat (length cs) < n ->
  last_error cs = Some z ->
  endTime (slotOf z) <> startTime (slotOf s) ->
  hasRun n (cs ++ s :: rest) -> hasRun n (s :: rest).
Proof.
  intros Hshort Hz Hbreak (before & run & after & Heq & Hch & Hlen).
  apply app_eq_app in Heq.
  destruct Heq as (l & [[Hcs Hra]|[Hb Hsr]]).
  2:{ exists l, run, after. auto. }
  destruct l as [|x l].
  { exists [], run, after. simpl in *. auto. }
  exfalso. symmetry in Hra. apply app_eq_app in Hra.
  assert (Hl : (length (x :: l) <= length cs)%nat)
    by (rewrite Hcs, length_app; lia).
  destruct Hra as (l' & [[Hxl _]|[Hrun Hsr]]).
  - rewrite Hxl, length_app in Hl. lia.
  - destruct l' as [|y l'].
    + rewrite app_nil_r in Hrun. subst run. lia.
    + simpl in Hsr. injection Hsr as Hs _. subst y.
      apply Hbreak. subst run.
      apply (chained_joint (x :: l) s l' z Hch).
      rewrite Hcs in Hz. rewrite last_error_app in Hz; [exact Hz|discriminate].
Qed.

Lemma findLoop_complete slots : forall consecutiveSlots lastSlotTime n,
  0 < n ->
  gathered consecutiveSlots lastSlotTime n ->
  hasRun n (consecutiveSlots ++ filter isFree slots) ->
  findLoop slots consecutiveSlots lastSlotTime n <> [].
Proof.
  induction slots as [|slot rest IH]; intros cs last n Hn Hg Hrun.
  - exfalso. destruct Hg as (_ & Hlen & _).
    destruct Hrun as (before & run & after & Heq & _ & Hlenrun).
    simpl in Heq. rewrite app_nil_r in Heq.
    apply (f_equal (@length _)) in Heq. rewrite !length_app in Heq. lia.
  - cbn [findLoop].
    change (filter isFree (slot :: rest))
      with (if isFree slot then slot :: filter isFree rest
            else filter isFree rest) in Hrun.
    unfold isFree at 1 in Hrun.
    destruct (isAssigned (slotOf slot)) eqn:Hassigned; cbn [negb] in Hrun.
    + now apply IH.
    + destruct Hg as (Hch & Hlen & Hlast).
      set (kept := match last with
                   | Some t => if negb (startTime (slotOf slot) =? t)
                               then [] else cs
                   | None => cs
                   end).
      assert (Hkept : chained kept /\ Z.of_nat (length kept) < n /\
                      (forall z, last_error kept = Some z ->
                         endTime (slotOf z) = startTime (slotOf slot)) /\
                      hasRun n (kept ++ slot :: filter isFree rest)).
      { unfold kept. destruct last as [t|].
        - destruct Hlast as (z & Hz & Hend).
          destruct (Z.eqb_spec (startTime (slotOf slot)) t) as [He|Hne];
            cbn [negb].
          + repeat split; try assumption.
            intros z' Hz'. rewrite Hz in Hz'. inversion Hz'; subst. lia.
          + repeat split; simpl; try lia; try discriminate.
            apply (run_after_break cs slot _ n z); try assumption. lia.
        - subst cs. repeat split; simpl; try lia; try discriminate.
          exact Hrun. }
      clearbody kept. destruct Hkept as (Hkc & Hkl & Hkt & Hkrun).
      assert (Hsnoc : chained (kept ++ [slot])) by now apply chained_snoc.
      assert (Hlen' : Z.of_nat (length (kept ++ [slot]))
                      = Z.of_nat (length kept) + 1)
        by (rewrite length_app; simpl; lia).
      destruct (Z.geb_spec (Z.of_nat (length (kept ++ [slot]))) n)
        as [Hge|Hlt].
      * assert (Hexact : n = Z.of_nat (length (kept ++ [slot]))) by lia.
        rewrite Hexact, slice0_all. destruct kept; discriminate.
      * apply IH; [exact Hn| |].
        -- repeat split; [exact Hsnoc|lia|].
           exists slot. split; [apply last_error_snoc|reflexivity].
        -- now rewrite <- app_assoc.
Qed.

(** X3.  For a positive count the finder returns the empty sequence exactly
    when the free slots of its input hold no [count] slots side by side,
    each ending where the next begins. *)
Theorem findConsecutiveSlots_empty_iff_no_run :
  forall slots count,
    0 < count ->
    (findConsecutiveSlots slots count = [] <->
     ~ hasRun count (filter isFree slots)).
Proof.
  intros slots n Hn. split.
  - intros Hnil Hrun.
    apply (findLoop_complete slots [] None n Hn); [|exact Hrun|exact Hnil].
    repeat split; simpl; lia.
  - intros Hnone.
    destruct (findConsecutiveSlots_spec slots n Hn)
      as [Hnil|(Hlen & Hch & before & after & Hcut)]; [exact Hnil|].
    exfalso. apply Hnone.
    exists before, (findConsecutiveSlots slots n), after. auto.
Qed.

Lemma findConsecutiveSlots_empty_iff_no_run_witness :
  0 < 2 /\
  (findConsecutiveSlots Example.fragmented 2 = [] <->
   ~ hasRun 2 (filter isFree Example.fragmented)).
Proof.
  split; [reflexivity|].
  apply (findConsecutiveSlots_empty_iff_no_run Example.fragmented 2).
  reflexivity.
Defined.

(** ** Runs that return *)

Lemma scheduleTaskAnywhere_returns t st tk :
  nth_error (sortedTasks st) t = Some tk ->
  0 < timeEstimate tk ->
  exists r, scheduleTaskAnywhere t st = Ok r.
Proof.
  intros Htk Hte. unfold scheduleTaskAnywhere. rewrite Htk.
  set (n := ceilDiv (timeEstimate tk) 30).
  assert (Hn : 0 < n)
    by (pose proof (ceilDiv_spec (timeEstimate tk)); unfold n; lia).
  set (found := findConsecutiveSlots (refsOf (availableSlots st)) n).
  destruct (Z.geb_spec (Z.of_nat (length found)) n) as [Hge|Hlt];
    [|eexists; reflexivity].
  destruct (nonempty_head found ltac:(lia)) as [first Hfirst].
  rewrite (assignTaskToSlots_head t found st first Hfirst).
  eexists. reflexivity.
Qed.

Lemma scheduleTaskWithDeadline_returns t st tk :
  nth_error (sortedTasks st) t = Some tk ->
  0 < timeEstimate tk ->
  exists r, scheduleTaskWithDeadline t st = Ok r.
Proof.
  intros Htk Hte. unfold scheduleTaskWithDeadline. rewrite Htk.
  destruct (deadline tk) as [d|]; [|eexists; reflexivity].
  set (view := filter _ (refsOf (availableSlots st))).
  destruct (length view =? 0)%nat; [eexists; reflexivity|].
  set (n := ceilDiv (timeEstimate tk) 30).
  assert (Hn : 0 < n)
    by (pose proof (ceilDiv_spec (timeEstimate tk)); unfold n; lia).
  set (found := findConsecutiveSlots view n).
  destruct (Z.geb_spec (Z.of_nat (length found)) n) as [Hge|Hlt];
    [|eexists; reflexivity].
  destruct (nonempty_head found ltac:(lia)) as [first Hfirst].
  rewrite (assignTaskToSlots_head t found st first Hfirst).
  eexists. reflexivity.
Qed.

Lemma runStep_returns s st :
  Forall (fun tk => 0 < timeEstimate tk) (sortedTasks st) ->
  (stepTask s < length (sortedTasks st))%nat ->
  exists st', runStep s st = Ok st'.
Proof.
  intros Hpos Hin. rewrite Forall_forall in Hpos.
  destruct s as [t|t]; cbn [stepTask] in Hin; unfold runStep;
    destruct (nth_error (sortedTasks st) t) as [tk|] eqn:Htk;
    try (apply nth_error_None in Htk; lia);
    pose proof (Hpos tk (nth_error_In _ _ Htk)) as Hte.
  - destruct (deadline tk); [|eexists; reflexivity].
    destruct (scheduleTaskWithDeadline_returns t st tk Htk Hte) as [r ->].
    eexists. reflexivity.
  - destruct (scheduledTime tk); [eexists; reflexivity|].
    destruct (scheduleTaskAnywhere_returns t st tk Htk Hte) as [r ->].
    eexists. reflexivity.
Qed.

Lemma unscheduled_updateAt time : forall t tasks,
  map unscheduled (updateAt (setScheduledTime time) t tasks)
  = map unscheduled tasks.
Proof.
  intros t tasks. revert t.
  induction tasks as [|tk tasks IH]; intros [|t]; simpl; try reflexivity.
  now rewrite IH.
Qed.

(** A step changes nothing of a task but its scheduled time. *)
Lemma runStep_keeps_tasks s st st' :
  runStep s st = Ok st' ->
  map unscheduled (sortedTasks st') = map unscheduled (sortedTasks st).
Proof.
  intros Hstep.
  destruct (runStep_outcome _ _ _ Hstep)
    as [->|(t & found & tk & Hplaced & _)]; [reflexivity|].
  destruct Hplaced as (tk' & first & _ & _ & _ & _ & _ & _ & ->).
  apply unscheduled_updateAt.
Qed.

Lemma runSteps_keeps_tasks steps : forall st st',
  runSteps steps st = Ok st' ->
  map unscheduled (sortedTasks st') = map unscheduled (sortedTasks st).
Proof.
  induction steps as [|s steps IH]; intros st st' Hrun; simpl in Hrun.
  - inversion Hrun; now subst.
  - destruct (runStep s st) as [st1|e] eqn:Hstep; simpl in Hrun;
      [|discriminate].
    rewrite (IH st1 st' Hrun). now apply (runStep_keeps_tasks s).
Qed.

Lemma map_cons_eq {A B : Type} (f : A -> B) x l y l' :
  map f (x :: l) = map f (y :: l') -> f x = f y /\ map f l = map f l'.
Proof. simpl. intros H. split; congruence. Qed.

Lemma positive_same_tasks l l' :
  map unscheduled l' = map unscheduled l ->
  Forall (fun tk => 0 < timeEstimate tk) l ->
  Forall (fun tk => 0 < timeEstimate tk) l'.
Proof.
  revert l. induction l' as [|x l' IH]; intros [|y l] Heq Hpos;
    try discriminate; constructor;
    apply map_cons_eq in Heq; destruct Heq as [Hxy Hrest];
    inversion Hpos; subst.
  - change (0 < timeEstimate (unscheduled x)). rewrite Hxy. assumption.
  - now apply (IH l).
Qed.

Lemma runSteps_returns steps : forall st,
  Forall (fun tk => 0 < timeEstimate tk) (sortedTasks st) ->
  Forall (fun s => (stepTask s < length (sortedTasks st))%nat) steps ->
  exists st', runSteps steps st = Ok st'.
Proof.
  induction steps as [|s steps IH]; intros st Hpos Hin.
  - now exists st.
  - inversion Hin as [|? ? Hs Hrest]; subst. cbn [runSteps].
    destruct (runStep_returns s st Hpos Hs) as [st1 Hstep].
    rewrite Hstep. cbn [bind].
    pose proof (runStep_keeps_tasks s st st1 Hstep) as Hsame.
    apply IH.
    + exact (positive_same_tasks _ _ Hsame Hpos).
    + apply (f_equal (@length _)) in Hsame. rewrite !length_map in Hsame.
      now rewrite Hsame.
Qed.

Lemma placementSteps_in_range n :
  Forall (fun s => (stepTask s < n)%nat) (placementSteps n).
Proof.
  unfold placementSteps. apply Forall_app.
  split; rewrite Forall_forall; intros s Hs; apply in_map_iff in Hs;
    destruct Hs as (i & <- & Hi); apply in_seq in Hi; simpl; lia.
Qed.

(** X4.  When every task has a positive time estimate, [scheduleTasks]
    returns, whatever the settings, the grid and the other fields of the
    tasks: it does not throw. *)
Theorem scheduleTasks_returns :
  forall settings now tasks startDate daysToSchedule,
    Forall (fun tk => 0 < timeEstimate tk) tasks ->
    exists result,
      scheduleTasks settings now tasks startDate daysToSchedule = Ok result.
Proof.
  intros settings now tasks startDate days Hpos.
  unfold scheduleTasks, scheduleTasksRun.
  set (st := initialRun settings now tasks startDate days).
  destruct (runSteps_returns (placementSteps (length (sortedTasks st))) st)
    as [st' Hrun].
  - rewrite Forall_forall in *. intros tk Hin. apply Hpos.
    exact (Permutation_in _ (Permutation_sym (arraySort_perm _ _)) Hin).
  - apply placementSteps_in_range.
  - rewrite Hrun. eexists. reflexivity.
Qed.

Lemma scheduleTasks_returns_witness :
  exists result,
    scheduleTasks Example.settings Example.monday
      [Example.report; Example.undated] Example.monday 7 = Ok result.
Proof.
  apply (scheduleTasks_returns Example.settings Example.monday
           [Example.report; Example.undated] Example.monday 7).
  repeat constructor.
Defined.

(** X5.  The list that [scheduleTasks] returns is the ranked list of its
    tasks with nothing but scheduled times changed: no task is dropped,
    repeated or moved, and priority, time estimate and deadline are as they
    came. *)
Theorem scheduleTasks_keeps_tasks :
  forall settings now tasks startDate daysToSchedule result,
    scheduleTasks settings now tasks startDate daysToSchedule = Ok result ->
    map unscheduled result
    = map unscheduled (sortTasksByPriority now tasks) /\
    Permutation (map unscheduled result) (map unscheduled tasks).
Proof.
  intros settings now tasks startDate days result Hrun.
  unfold scheduleTasks in Hrun.
  destruct (scheduleTasksRun settings now tasks startDate days)
    as [final|e] eqn:Hfinal; simpl in Hrun; [|discriminate].
  inversion Hrun; subst result.
  apply runSteps_keeps_tasks in Hfinal. cbn [initialRun sortedTasks] in Hfinal.
  split; [exact Hfinal|]. rewrite Hfinal.
  apply Permutation_map, Permutation_sym, arraySort_perm.
Qed.

Lemma scheduleTasks_keeps_tasks_witness :
  scheduleTasks Example.settings Example.monday [Example.report]
    Example.monday 1 = Ok [Example.scheduled] /\
  map unscheduled [Example.scheduled]
  = map unscheduled (sortTasksByPriority Example.monday [Example.report]) /\
  Permutation (map unscheduled [Example.scheduled])
              (map unscheduled [Example.report]).
Proof.
  split; [vm_compute; reflexivity|].
  apply (scheduleTasks_keeps_tasks Example.settings Example.monday
           [Example.report] Example.monday 1 [Example.scheduled]).
  vm_compute. reflexivity.
Defined.

Lemma compareTasks_unscheduled now a b :
  compareTasks now (unscheduled a) (unscheduled b) = compareTasks now a b.
Proof. reflexivity. Qed.

Lemma sorted_same_tasks now l : forall l',
  map unscheduled l' = map unscheduled l ->
  Sorted (notAfter now) l -> Sorted (notAfter now) l'.
Proof.
  induction l as [|x l IH]; intros [|x' l'] Heq Hs; try discriminate;
    [constructor|].
  apply map_cons_eq in Heq. destruct Heq as [Hx Hrest].
  inversion Hs as [|? ? Hl Hhd]; subst.
  constructor; [now apply IH|].
  destruct l' as [|y' l']; [constructor|].
  destruct l as [|y l]; [discriminate|].
  apply map_cons_eq in Hrest. destruct Hrest as [Hy _].
  inversion Hhd as [|? ? Hxy]; subst. constructor.
  unfold notAfter in *.
  rewrite <- (compareTasks_unscheduled now x' y'), Hx, Hy.
  now rewrite compareTasks_unscheduled.
Qed.

(** X6.  The list that [scheduleTasks] returns is still in ranking order:
    ranking it again, at the same clock reading, leaves it as it is. *)
Theorem scheduleTasks_result_is_ranked :
  forall settings now tasks startDate daysToSchedule result,
    scheduleTasks settings now tasks startDate daysToSchedule = Ok result ->
    sortTasksByPriority now result = result.
Proof.
  intros settings now tasks startDate days result Hrun.
  unfold scheduleTasks in Hrun.
  destruct (scheduleTasksRun settings now tasks startDate days)
    as [final|e] eqn:Hfinal; simpl in Hrun; [|discriminate].
  inversion Hrun; subst result.
  apply runSteps_keeps_tasks in Hfinal. cbn [initialRun sortedTasks] in Hfinal.
  unfold sortTasksByPriority at 1. apply arraySort_fixes_sorted.
  apply (sorted_same_tasks now _ _ Hfinal).
  apply arraySort_sorted, compareTasks_total.
Qed.

Lemma scheduleTasks_result_is_ranked_witness :
  scheduleTasks Example.settings Example.monday Example.threeTasks
    Example.monday 1 = Ok Example.threeScheduled /\
  map unscheduled Example.threeScheduled
  = [Example.report; Example.undated; Example.errand] /\
  sortTasksByPriority Example.monday Example.threeScheduled
  = Example.threeScheduled.
Proof.
  split; [vm_compute; reflexivity|]. split; [reflexivity|].
  apply (scheduleTasks_result_is_ranked Example.settings Example.monday
           Example.threeTasks Example.monday 1 Example.threeScheduled).
  vm_compute. reflexivity.
Defined.

(** ** Where the scheduled times lie *)





(** ** The order of the task list *)

Lemma insertSorted_ext_in {A : Type} (cmp cmp' : A -> A -> Z) x l :
  (forall y, In y l -> cmp x y = cmp' x y) ->
  insertSorted cmp x l = insertSorted cmp' x l.
Proof.
  induction l as [|y l IH]; intros Hext; simpl; [reflexivity|].
  rewrite (Hext y) by (now left). destruct (cmp' x y <=? 0); [reflexivity|].
  f_equal. apply IH. intros z Hz. apply Hext. now right.
Qed.

(** Sorting depends on the comparator only through the elements it is
    given. *)
Lemma arraySort_ext_in {A : Type} (cmp cmp' : A -> A -> Z) l :
  (forall a b, In a l -> In b l -> cmp a b = cmp' a b) ->
  arraySort cmp l = arraySort cmp' l.
Proof.
  induction l as [|x l IH]; intros Hext; simpl; [reflexivity|].
  rewrite IH by (intros a b Ha Hb; apply Hext; now right).
  apply insertSorted_ext_in. intros y Hy. apply Hext; [now left|right].
  exact (Permutation_in _ (Permutation_sym (arraySort_perm cmp' l)) Hy).
Qed.

Lemma compareByScheduledTime_keys a b :
  scheduledTime a <> None -> scheduledTime b <> None ->
  compareByScheduledTime a b = timeKey a - timeKey b.
Proof.
  unfold compareByScheduledTime, timeKey.
  destruct (scheduledTime a), (scheduledTime b); intros; congruence.
Qed.

(** X9.  When every task of the list has a scheduled time, the task list of
    the view shows the same tasks in the order of their scheduled times. *)
Theorem taskListOrder_by_time :
  forall scheduledTasks,
    Forall (fun tk => scheduledTime tk <> None) scheduledTasks ->
    StronglySorted notScheduledAfter (taskListOrder scheduledTasks) /\
    Permutation scheduledTasks (taskListOrder scheduledTasks).
Proof.
  intros tasks Hall. rewrite Forall_forall in Hall.
  unfold taskListOrder.
  rewrite (arraySort_ext_in compareByScheduledTime
             (fun a b => timeKey a - timeKey b)).
  2:{ intros a b Ha Hb. apply compareByScheduledTime_keys; auto. }
  split; [|apply arraySort_perm].
  assert (Hsorted : StronglySorted (fun a b => timeKey a - timeKey b <= 0)
                      (arraySort (fun a b => timeKey a - timeKey b) tasks)).
  { apply arraySort_strongly_sorted; intros; lia. }
  induction Hsorted as [|x l Hl IH Hx]; constructor; [exact IH|].
  rewrite Forall_forall in *. intros y Hy ta tb Ha Hb.
  specialize (Hx y Hy). unfold timeKey in Hx. rewrite Ha, Hb in Hx. lia.
Qed.

Lemma taskListOrder_by_time_witness :
  map timeKey Example.threeScheduled
  = [Example.monday + 9 * JsDate.msPerHour;
     Example.monday + 11 * JsDate.msPerHour + 30 * JsDate.msPerMinute;
     Example.monday + 10 * JsDate.msPerHour] /\
  map timeKey (taskListOrder Example.threeScheduled)
  = [Example.monday + 9 * JsDate.msPerHour;
     Example.monday + 10 * JsDate.msPerHour;
     Example.monday + 11 * JsDate.msPerHour + 30 * JsDate.msPerMinute] /\
  StronglySorted notScheduledAfter
    (taskListOrder Example.threeScheduled) /\
  Permutation Example.threeScheduled
    (taskListOrder Example.threeScheduled).
Proof.
  split; [reflexivity|]. split; [reflexivity|].
  apply (taskListOrder_by_time Example.threeScheduled).
  repeat constructor; discriminate.
Defined.

(** X10.  A task without scheduled time ties with every task for the
    comparator of the task list.  With such a task in the list the
    comparator is no ordering: two scheduled tasks both tie with it, and one
    of them still comes after the other. *)
Theorem compareByScheduledTime_not_transitive :
  forall a b c ta tc,
    scheduledTime a = Some ta ->
    scheduledTime b = None ->
    scheduledTime c = Some tc ->
    tc < ta ->
    compareByScheduledTime a b = 0 /\
    compareByScheduledTime b c = 0 /\
    0 < compareByScheduledTime a c.
Proof.
  intros a b c ta tc Ha Hb Hc Hlt. unfold compareByScheduledTime.
  rewrite Ha, Hb, Hc. repeat split; lia.
Qed.

Lemma compareByScheduledTime_not_transitive_witness :
  compareByScheduledTime Example.scheduled Example.undated = 0 /\
  compareByScheduledTime Example.undated (setScheduledTime 0 Example.report)
  = 0 /\
  0 < compareByScheduledTime Example.scheduled
        (setScheduledTime 0 Example.report).
Proof.
  apply (compareByScheduledTime_not_transitive
           Example.scheduled Example.undated
           (setScheduledTime 0 Example.report)
           (Example.monday + 9 * JsDate.msPerHour) 0);
    reflexivity.
Defined.

(** ** Working days in the settings tab *)

Lemma removeFirst_In x l y :
  In y (removeFirst x l) -> In y l.
Proof.
  induction l as [|z l IH]; simpl; [auto|].
  destruct (z =? x); [auto|]. intros [H|H]; auto.
Qed.

Lemma removeFirst_NoDup x l :
  NoDup l -> NoDup (removeFirst x l) /\ ~ In x (removeFirst x l).
Proof.
  induction l as [|z l IH]; intros Hnd; simpl.
  - split; [constructor|auto].
  - inversion Hnd as [|? ? Hz Hl]; subst.
    destruct (Z.eqb_spec z x) as [->|Hne]; [now split|].
    destruct (IH Hl) as [Hnd' Hnot]. split.
    + constructor; [|exact Hnd']. intros Hin. apply Hz.
      now apply removeFirst_In in Hin.
    + intros [H|H]; [congruence|contradiction].
Qed.

Lemma removeFirst_keeps x l y :
  y <> x -> In y l -> In y (removeFirst x l).
Proof.
  intros Hne. induction l as [|z l IH]; simpl; [auto|].
  destruct (Z.eqb_spec z x) as [->|Hzx]; intros [H|H]; subst; auto;
    try contradiction; try (now left); right; auto.
Qed.

Lemma includes_In l x : includes l x = true <-> In x l.
Proof.
  unfold includes. rewrite existsb_exists. split.
  - intros (y & Hy & Heq). apply Z.eqb_eq in Heq. now subst.
  - intros Hin. exists x. split; [exact Hin|apply Z.eqb_refl].
Qed.

Lemma strictly_sorted_NoDup l : StronglySorted Z.lt l -> NoDup l.
Proof.
  induction 1 as [|x l Hl IH Hx]; constructor; [|exact IH].
  intros Hin. rewrite Forall_forall in Hx. specialize (Hx x Hin). lia.
Qed.

Lemma sorted_NoDup_strict l :
  StronglySorted (fun a b => a - b <= 0) l -> NoDup l ->
  StronglySorted Z.lt l.
Proof.
  induction 1 as [|x l Hl IH Hx]; intros Hnd; constructor;
    inversion Hnd; subst; [now apply IH|].
  rewrite Forall_forall in *. intros y Hy. specialize (Hx y Hy).
  assert (x <> y) by congruence. lia.
Qed.

(** X11.  Ticking or unticking a weekday in the settings tab keeps the
    working days in increasing order without repetition, and afterwards the
    weekday is a working day exactly when its box is ticked, the other
    weekdays being as before. *)
Theorem onWorkingDayChange_sets_day :
  forall checked index workingDays,
    StronglySorted Z.lt workingDays ->
    let after := onWorkingDayChange checked index workingDays in
    StronglySorted Z.lt after /\
    forall x,
      includes after x
      = if x =? index then checked else includes workingDays x.
Proof.
  intros checked index wd Hsorted after.
  pose proof (strictly_sorted_NoDup wd Hsorted) as Hnd.
  unfold onWorkingDayChange in after.
  set (wd' := if checked && negb (includes wd index) then wd ++ [index]
              else if negb checked && includes wd index
                   then removeFirst index wd else wd) in *.
  assert (Hwd' : NoDup wd' /\
                 forall x, In x wd' <->
                   (if x =? index then checked = true else In x wd)).
  { unfold wd'. destruct checked, (includes wd index) eqn:Hinc; cbn [andb negb].
    - split; [exact Hnd|]. intros x.
      destruct (Z.eqb_spec x index) as [->|_]; [|tauto].
      apply includes_In in Hinc. tauto.
    - assert (Hnot : ~ In index wd).
      { intros Hin. apply includes_In in Hin. congruence. }
      split.
      + apply NoDup_app; [exact Hnd|repeat constructor; auto|].
        intros a Ha [<-|[]]. contradiction.
      + intros x. rewrite in_app_iff. simpl.
        destruct (Z.eqb_spec x index) as [->|Hne]; [tauto|].
        split; [intros [H|[H|[]]]; [exact H|congruence]|tauto].
    - destruct (removeFirst_NoDup index wd Hnd) as [Hnd' Hnot].
      split; [exact Hnd'|]. intros x.
      destruct (Z.eqb_spec x index) as [->|Hne].
      + split; [contradiction|discriminate].
      + split; [apply removeFirst_In|now apply removeFirst_keeps].
    - split; [exact Hnd|]. intros x.
      destruct (Z.eqb_spec x index) as [->|_]; [|tauto].
      split; [|discriminate]. intros Hin. apply includes_In in Hin.
      congruence. }
  clearbody wd'. destruct Hwd' as [Hnd' Hmem].
  pose proof (arraySort_perm (fun a b => a - b) wd') as Hperm.
  fold after in Hperm. split.
  - apply sorted_NoDup_strict.
    + apply arraySort_strongly_sorted; intros; lia.
    + exact (Permutation_NoDup Hperm Hnd').
  - intros x. apply eq_true_iff_eq. rewrite includes_In.
    assert (Hin : In x after <-> In x wd').
    { split; apply Permutation_in;
        [apply Permutation_sym|]; exact Hperm. }
    rewrite Hin, Hmem.
    destruct (x =? index); [tauto|]. now rewrite includes_In.
Qed.

Lemma onWorkingDayChange_sets_day_witness :
  StronglySorted Z.lt [1; 2; 3; 4; 5] /\
  let after := onWorkingDayChange true 0 [1; 2; 3; 4; 5] in
  StronglySorted Z.lt after /\
  forall x,
    includes after x
    = if x =? 0 then true else includes [1; 2; 3; 4; 5] x.
Proof.
  assert (Hdefault : StronglySorted Z.lt [1; 2; 3; 4; 5])
    by (repeat constructor).
  split; [exact Hdefault|].
  exact (onWorkingDayChange_sets_day true 0 [1; 2; 3; 4; 5] Hdefault).
Defined.

(** ** The time tag *)

(** X12.  A time estimate that [toLine] has written as a tag comes back
    from the number and unit of the tag rounded down to whole hours when it
    is 60 minutes or more: up to 59 minutes are lost, and the estimate is
    the same again exactly when it is below 60 or a multiple of 60.  The
    estimate is a whole number below 2^53: up to there the division, the
    rounding down and the product of the code, which are those of floating
    point numbers, are the ones of the integers. *)
Theorem timeTag_round_trip :
  forall timeEstimate,
    0 <= timeEstimate < 2 ^ 53 ->
    let back := timeOfTag (timeTag timeEstimate) in
    back = (if timeEstimate <? 60 then timeEstimate
            else timeEstimate - timeEstimate mod 60) /\
    timeEstimate - 59 <= back <= timeEstimate /\
    (back = timeEstimate <->
     timeEstimate < 60 \/ timeEstimate mod 60 = 0).
Proof.
  intros te [Hte _] back. unfold back, timeTag, timeOfTag.
  pose proof (Z.div_mod te 60 ltac:(discriminate)) as Hdiv.
  pose proof (Z.mod_pos_bound te 60 ltac:(reflexivity)) as Hmod.
  destruct (Z.geb_spec te 60), (Z.ltb_spec te 60); try lia;
    repeat split; try lia; intros; lia.
Qed.

Lemma timeTag_round_trip_witness :
  0 <= 90 < 2 ^ 53 /\
  let back := timeOfTag (timeTag 90) in
  back = (if 90 <? 60 then 90 else 90 - 90 mod 60) /\
  90 - 59 <= back <= 90 /\
  (back = 90 <-> 90 < 60 \/ 90 mod 60 = 0).
Proof.
  split; [split; [discriminate|reflexivity]|].
  apply (timeTag_round_trip 90). split; [discriminate|reflexivity].
Defined.

(** ** Recurring tasks *)

Section Recurring.

Variables nextMonth nextYear : Z -> Z.

Lemma createRecurringInstance_by_days t pattern days d :
  (pattern = "daily"%string /\ days = 1) \/
  (pattern = "weekly"%string /\ days = 7) ->
  recurrence t = Some pattern ->
  deadline (metadata t) = Some d ->
  createRecurringInstance nextMonth nextYear t
  = Some (mkItem (description t)
            (mkTask (priority (metadata t)) (timeEstimate (metadata t))
               (Some (d + days * JsDate.msPerDay)) None)
            false (category t) (recurrence t) (tags t)).
Proof.
  intros Hpattern Hrec Hd. unfold createRecurringInstance.
  rewrite Hrec, Hd.
  destruct Hpattern as [[-> ->]|[-> ->]]; reflexivity.
Qed.

Lemma nthInstance_S n t :
  nthInstance nextMonth nextYear (S n) t
  = match createRecurringInstance nextMonth nextYear t with
    | Some t' => nthInstance nextMonth nextYear n t'
    | None => None
    end.
Proof. reflexivity. Qed.

(** X13.  A task that recurs daily or weekly and has a deadline always has
    a next instance, and so has every instance: the [n]-th one is due [n]
    periods of 1 or 7 days after the task, is neither completed nor
    scheduled, and has the description, priority, time estimate, category,
    recurrence and tags of the task. *)
Theorem nthInstance_by_days :
  forall n t pattern days d,
    (pattern = "daily"%string /\ days = 1) \/
    (pattern = "weekly"%string /\ days = 7) ->
    recurrence t = Some pattern ->
    deadline (metadata t) = Some d ->
    nthInstance nextMonth nextYear (S n) t
    = Some (mkItem (description t)
              (mkTask (priority (metadata t)) (timeEstimate (metadata t))
                 (Some (d + Z.of_nat (S n) * days * JsDate.msPerDay)) None)
              false (category t) (recurrence t) (tags t)).
Proof.
  induction n as [|n IH]; intros t pattern days d Hpattern Hrec Hd;
    rewrite nthInstance_S,
      (createRecurringInstance_by_days t pattern days d Hpattern Hrec Hd).
  - replace (d + Z.of_nat 1 * days * JsDate.msPerDay)
      with (d + days * JsDate.msPerDay) by lia.
    reflexivity.
  - rewrite (IH _ pattern days (d + days * JsDate.msPerDay) Hpattern);
      [|exact Hrec|reflexivity].
    cbn [description metadata priority timeEstimate category recurrence
         tags].
    replace (d + days * JsDate.msPerDay
             + Z.of_nat (S n) * days * JsDate.msPerDay)
      with (d + Z.of_nat (S (S n)) * days * JsDate.msPerDay) by lia.
    reflexivity.
Qed.

End Recurring.

Lemma nthInstance_by_days_witness :
  nthInstance (fun d => d) (fun d => d) 7
    (mkItem "stand-up"%string Example.report true None (Some "daily"%string) [])
  = Some (mkItem "stand-up"%string
            (mkTask 1 60
               (Some (Example.monday + 12 * JsDate.msPerHour
                      + Z.of_nat 7 * 1 * JsDate.msPerDay)) None)
            false None (Some "daily"%string) []).
Proof.
  apply (nthInstance_by_days (fun d => d) (fun d => d) 6
           (mkItem "stand-up"%string Example.report true None
              (Some "daily"%string) [])
           "daily"%string 1 (Example.monday + 12 * JsDate.msPerHour)).
  - left. split; reflexivity.
  - reflexivity.
  - reflexivity.
Defined.

(** ** Statistics *)

Lemma filter_disjoint_length {A : Type} (f g : A -> bool) l :
  (forall x, f x = true -> g x = false) ->
  (length (filter f l) + length (filter g l) <= length l)%nat.
Proof.
  intros Hdis. induction l as [|x l IH]; simpl; [lia|].
  destruct (f x) eqn:Hf.
  - rewrite (Hdis x Hf). simpl. lia.
  - destruct (g x); simpl; lia.
Qed.

(** X14.  In the statistics no task counts twice among the overdue, the
    upcoming and the completed: overdue and upcoming deadlines together, and
    overdue and completed tasks together, are no more than all tasks; a
    completed task is never overdue, and a task due at this very moment is
    neither overdue nor upcoming. *)
Theorem getScheduleStatistics_bounds :
  forall now allTasks,
    let stats := getScheduleStatistics now allTasks in
    (overdueTasks stats + upcomingDeadlines stats <= totalTasks stats)%nat /\
    (overdueTasks stats + completedTasks stats <= totalTasks stats)%nat /\
    (scheduledTasks stats <= totalTasks stats)%nat /\
    (forall t, deadline (metadata t) = Some now ->
       overdueTasks (getScheduleStatistics now [t]) = 0%nat /\
       upcomingDeadlines (getScheduleStatistics now [t]) = 0%nat).
Proof.
  intros now allTasks stats. unfold stats, getScheduleStatistics.
  cbn [overdueTasks upcomingDeadlines totalTasks completedTasks
       scheduledTasks].
  split; [|split; [|split; [|intros t Hnow; split]]].
  - apply filter_disjoint_length. intros t.
    destruct (deadline (metadata t)) as [d|]; [|discriminate].
    intros H. apply andb_true_iff in H. destruct H as [H _].
    apply Z.ltb_lt in H. destruct (Z.ltb_spec now d); [lia|reflexivity].
  - apply filter_disjoint_length. intros t.
    destruct (deadline (metadata t)) as [d|]; [|discriminate].
    intros H. apply andb_true_iff in H. destruct H as [_ H].
    now apply negb_true_iff in H.
  - apply filter_length_le.
  - simpl. rewrite Hnow, Z.ltb_irrefl. reflexivity.
  - simpl. rewrite Hnow, Z.ltb_irrefl. reflexivity.
Qed.

(** ** Lines of a file *)

Lemma splitOn_nonempty sep s : splitOn sep s <> [].
Proof.
  destruct s as [|c s]; simpl; [discriminate|].
  destruct (Ascii.eqb c sep); [discriminate|].
  destruct (splitOn sep s); discriminate.
Qed.

Lemma splitOn_free sep s : freeOf sep s = true -> splitOn sep s = [s].
Proof.
  induction s as [|c s IH]; simpl; [reflexivity|].
  intros H. apply andb_true_iff in H. destruct H as [Hc Hs].
  apply negb_true_iff in Hc. rewrite Hc, (IH Hs). reflexivity.
Qed.

Lemma splitOn_app sep l : forall r,
  freeOf sep l = true ->
  splitOn sep (String.append l (String.String sep r)) = l :: splitOn sep r.
Proof.
  induction l as [|c l IH]; intros r; simpl.
  - intros _. now rewrite Ascii.eqb_refl.
  - intros H. apply andb_true_iff in H. destruct H as [Hc Hl].
    apply negb_true_iff in Hc. rewrite Hc, (IH r Hl). reflexivity.
Qed.

Lemma splitOn_parts_free sep s :
  Forall (fun part => freeOf sep part = true) (splitOn sep s).
Proof.
  induction s as [|c s IH]; simpl; [repeat constructor|].
  destruct (Ascii.eqb c sep) eqn:Hc; [constructor; [reflexivity|exact IH]|].
  destruct (splitOn sep s) as [|part parts]; [repeat constructor; simpl|].
  - now rewrite Hc.
  - inversion IH; subst. constructor; [|assumption].
    simpl. rewrite Hc. assumption.
Qed.

Lemma joinLines_cons_char c line lines :
  joinLines (String.String c line :: lines)
  = String.String c (joinLines (line :: lines)).
Proof. destruct lines; reflexivity. Qed.

(** Splitting into lines and joining again gives the content back. *)
Lemma joinLines_splitLines content : joinLines (splitLines content) = content.
Proof.
  unfold splitLines. induction content as [|c s IH]; [reflexivity|].
  cbn [splitOn]. destruct (Ascii.eqb_spec c newline) as [->|Hc].
  - cbn [joinLines]. pose proof (splitOn_nonempty newline s) as Hne.
    destruct (splitOn newline s) as [|part parts]; [contradiction|].
    simpl in *. now rewrite IH.
  - pose proof (splitOn_nonempty newline s) as Hne.
    destruct (splitOn newline s) as [|part parts]; [contradiction|].
    now rewrite joinLines_cons_char, IH.
Qed.

(** Joining lines and splitting again gives the lines back. *)
Lemma splitLines_joinLines lines :
  lines <> [] ->
  Forall (fun line => singleLine line = true) lines ->
  splitLines (joinLines lines) = lines.
Proof.
  unfold splitLines, singleLine.
  induction lines as [|line [|line2 rest] IH]; intros Hne Hall;
    [contradiction| |].
  - inversion Hall; subst. now apply splitOn_free.
  - inversion Hall as [|? ? Hline Hrest]; subst.
    change (joinLines (line :: line2 :: rest))
      with (String.append line
              (String.String newline (joinLines (line2 :: rest)))).
    rewrite splitOn_app by exact Hline.
    rewrite IH; [reflexivity|discriminate|exact Hrest].
Qed.

Lemma splitLines_single content :
  Forall (fun line => singleLine line = true) (splitLines content).
Proof. apply splitOn_parts_free. Qed.

Lemma updateAt_single lines n line :
  Forall (fun l => singleLine l = true) lines ->
  singleLine line = true ->
  Forall (fun l => singleLine l = true)
         (updateAt (fun _ => line) n lines).
Proof.
  intros Hall Hline. revert n.
  induction Hall as [|l lines Hl Hall IH]; intros [|n]; simpl;
    constructor; auto.
Qed.

(** X15.  [updateTaskInFile] writes nothing and returns false when the line
    number is not below the number of lines of the file; for a line number
    inside the file and a task line without line feed, the file it writes
    has the same number of lines, the task line at that number and every
    other line as before; with a negative line number it returns true and
    writes the file back as it was. *)
Theorem updateTaskInFile_replaces_line :
  forall content lineNumber line,
    let lines := splitLines content in
    (Z.of_nat (length lines) <= lineNumber ->
     updateTaskInFile content lineNumber line = None) /\
    (0 <= lineNumber < Z.of_nat (length lines) ->
     singleLine line = true ->
     exists written,
       updateTaskInFile content lineNumber line = Some written /\
       length (splitLines written) = length lines /\
       forall k,
         nth_error (splitLines written) k
         = if (k =? Z.to_nat lineNumber)%nat then Some line
           else nth_error lines k) /\
    (lineNumber < 0 ->
     updateTaskInFile content lineNumber line = Some content).
Proof.
  intros content n line lines. unfold updateTaskInFile. fold lines.
  repeat split.
  - intros Hout. destruct (Z.ltb_spec n (Z.of_nat (length lines)));
      [lia|reflexivity].
  - intros Hin Hline.
    destruct (Z.ltb_spec n (Z.of_nat (length lines))); [|lia].
    eexists. split; [reflexivity|].
    unfold assignLine.
    destruct (Z.ltb_spec n 0); [lia|].
    destruct (Z.ltb_spec n (Z.of_nat (length lines))); [|lia].
    rewrite splitLines_joinLines.
    + split; [apply updateAt_length|]. intros k.
      rewrite nth_error_updateAt.
      destruct (Nat.eqb_spec k (Z.to_nat n)) as [->|]; [|reflexivity].
      destruct (nth_error lines (Z.to_nat n)) eqn:Hn; [reflexivity|].
      apply nth_error_None in Hn. lia.
    + intros Hnil. apply (f_equal (@length _)) in Hnil.
      rewrite updateAt_length in Hnil. simpl in Hnil. lia.
    + apply updateAt_single; [apply splitLines_single|exact Hline].
  - intros Hneg.
    destruct (Z.ltb_spec n (Z.of_nat (length lines))); [|lia].
    unfold assignLine. destruct (Z.ltb_spec n 0); [|lia].
    unfold lines. now rewrite joinLines_splitLines.
Qed.

(** X16.  [updateTask] of the Tasks integration does not check the line
    number: beyond the end of the file it makes the file longer, with empty
    lines up to that number and the task line there. *)
Theorem updateTask_grows_file :
  forall content lineNumber line,
    Z.of_nat (length (splitLines content)) <= lineNumber ->
    singleLine line = true ->
    splitLines (updateTask content lineNumber line)
    = splitLines content
        ++ repeat String.EmptyString
             (Z.to_nat lineNumber - length (splitLines content))
        ++ [line] /\
    nth_error (splitLines (updateTask content lineNumber line))
      (Z.to_nat lineNumber) = Some line.
Proof.
  intros content n line Hout Hline. unfold updateTask, assignLine.
  destruct (Z.ltb_spec n 0); [lia|].
  destruct (Z.ltb_spec n (Z.of_nat (length (splitLines content)))); [lia|].
  rewrite splitLines_joinLines.
  - split; [reflexivity|].
    rewrite nth_error_app2 by lia.
    rewrite nth_error_app2 by (rewrite repeat_length; lia).
    rewrite repeat_length.
    replace (Z.to_nat n - length (splitLines content)
             - (Z.to_nat n - length (splitLines content)))%nat
      with 0%nat by lia.
    reflexivity.
  - intros Hnil. apply app_eq_nil in Hnil. destruct Hnil as [_ Hnil].
    apply app_eq_nil in Hnil. destruct Hnil as [_ Hnil]. discriminate.
  - apply Forall_app. split; [apply splitLines_single|].
    apply Forall_app. split; [|repeat constructor; exact Hline].
    rewrite Forall_forall. intros l Hl. apply repeat_spec in Hl. now subst.
Qed.

Lemma updateTask_grows_file_witness :
  splitLines (updateTask "a"%string 2 "b"%string)
  = splitLines "a"%string
      ++ repeat String.EmptyString
           (Z.to_nat 2 - length (splitLines "a"%string))
      ++ ["b"%string] /\
  nth_error (splitLines (updateTask "a"%string 2 "b"%string)) (Z.to_nat 2)
  = Some "b"%string.
Proof.
  apply (updateTask_grows_file "a"%string 2 "b"%string).
  - vm_compute. discriminate.
  - reflexivity.
Defined.

(** X17.  [createTask] adds the task line as the last line of the file and
    gives the task the number of that line: the lines before it are as they
    were, the line at that number is the task line, and [updateTaskInFile]
    with that number accepts the task. *)
Theorem createTask_appends_line :
  forall content line,
    singleLine line = true ->
    let written := fst (createTask content line) in
    let lineNumber := snd (createTask content line) in
    splitLines written = splitLines content ++ [line] /\
    lineNumber = Z.of_nat (length (splitLines content)) /\
    nth_error (splitLines written) (Z.to_nat lineNumber) = Some line /\
    forall line', updateTaskInFile written lineNumber line' <> None.
Proof.
  intros content line Hline written lineNumber.
  assert (Hsplit : splitLines written = splitLines content ++ [line]).
  { unfold written, createTask. cbn [fst]. apply splitLines_joinLines.
    - destruct (splitLines content); discriminate.
    - apply Forall_app. split; [apply splitLines_single|].
      repeat constructor. exact Hline. }
  assert (Hnum : lineNumber = Z.of_nat (length (splitLines content))).
  { unfold lineNumber, createTask. cbn [snd].
    rewrite length_app. simpl. lia. }
  repeat split; try assumption.
  - rewrite Hsplit, Hnum, Nat2Z.id, nth_error_app2 by lia.
    now rewrite Nat.sub_diag.
  - intros line'. unfold updateTaskInFile. rewrite Hsplit, length_app, Hnum.
    simpl.
    destruct (Z.ltb_spec (Z.of_nat (length (splitLines content)))
                (Z.of_nat (length (splitLines content) + 1)));
      [discriminate|lia].
Qed.

Lemma createTask_appends_line_witness :
  let written := fst (createTask "a"%string "b"%string) in
  let lineNumber := snd (createTask "a"%string "b"%string) in
  splitLines written = splitLines "a"%string ++ ["b"%string] /\
  lineNumber = Z.of_nat (length (splitLines "a"%string)) /\
  nth_error (splitLines written) (Z.to_nat lineNumber) = Some "b"%string /\
  forall line', updateTaskInFile written lineNumber line' <> None.
Proof.
  apply (createTask_appends_line "a"%string "b"%string). reflexivity.
Defined.

(** ** Working hours in the settings tab *)

Lemma charIn_bounds lo hi c :
  charIn lo hi c = true ->
  (Ascii.nat_of_ascii lo <= Ascii.nat_of_ascii c <= Ascii.nat_of_ascii hi)%nat.
Proof.
  unfold charIn. intros H. apply andb_true_iff in H. destruct H as [H1 H2].
  apply Nat.leb_le in H1. apply Nat.leb_le in H2. lia.
Qed.

Lemma charIn_digit lo hi c :
  (48 <= Ascii.nat_of_ascii lo)%nat -> (Ascii.nat_of_ascii hi <= 57)%nat ->
  charIn lo hi c = true ->
  isDigit c = true /\ Ascii.eqb c ":"%char = false /\
  Z.of_nat (Ascii.nat_of_ascii lo) - 48 <= digitOf c
  <= Z.of_nat (Ascii.nat_of_ascii hi) - 48.
Proof.
  intros Hlo Hhi Hc. apply charIn_bounds in Hc. repeat split.
  - unfold isDigit, charIn. apply andb_true_iff.
    change (Ascii.nat_of_ascii "0"%char) with 48%nat.
    change (Ascii.nat_of_ascii "9"%char) with 57%nat.
    split; apply Nat.leb_le; lia.
  - destruct (Ascii.eqb_spec c ":"%char) as [->|]; [|reflexivity].
    change (Ascii.nat_of_ascii ":"%char) with 58%nat in Hc. lia.
  - unfold digitOf. lia.
  - unfold digitOf. lia.
Qed.

Ltac digit_facts H :=
  let Hd := fresh "Hdigit" in
  let Hcolon := fresh "Hcolon" in
  let Hval := fresh "Hval" in
  apply charIn_digit in H;
  [destruct H as (Hd & Hcolon & Hval); vm_compute (Ascii.nat_of_ascii _) in Hval
  | vm_compute; lia | vm_compute; lia].

(** X18.  A working-hours value that the settings tab accepts is read by
    the generator as an hour from 0 to 23 and a minute from 0 to 59: the
    time lies inside the day. *)
Theorem acceptsTime_inside_day :
  forall value,
    acceptsTime value = true ->
    exists hour minute,
      workingHoursOf value = Some (hour, minute) /\
      0 <= hour <= 23 /\ 0 <= minute <= 59 /\
      0 <= minutesOf (hour, minute) < 1440.
Proof.
  intros value Hok.
  destruct value as [|a [|b [|c [|d [|e [|f rest]]]]]]; try discriminate.
  - (* h:mm *)
    cbn [acceptsTime] in Hok.
    apply andb_true_iff in Hok. destruct Hok as [Hok Hd].
    apply andb_true_iff in Hok. destruct Hok as [Hok Hc].
    apply andb_true_iff in Hok. destruct Hok as [Ha Hb].
    apply Ascii.eqb_eq in Hb. subst b.
    unfold isDigit in Ha, Hd.
    digit_facts Ha. digit_facts Hc. digit_facts Hd.
    unfold workingHoursOf. cbn [splitOn].
    rewrite ?Ascii.eqb_refl, Hcolon, Hcolon0, Hcolon1.
    cbn [map numberOf digitsValue]. rewrite Hdigit, Hdigit0, Hdigit1.
    eexists. eexists. split; [reflexivity|].
    unfold minutesOf. cbn [fst snd]. lia.
  - (* hh:mm *)
    cbn [acceptsTime] in Hok.
    apply andb_true_iff in Hok. destruct Hok as [Hok He].
    apply andb_true_iff in Hok. destruct Hok as [Hok Hd].
    apply andb_true_iff in Hok. destruct Hok as [Hok Hc].
    apply Ascii.eqb_eq in Hc. subst c.
    unfold isDigit in He.
    digit_facts Hd. digit_facts He.
    assert (Hhour : isDigit a = true /\ Ascii.eqb a ":"%char = false /\
                    isDigit b = true /\ Ascii.eqb b ":"%char = false /\
                    0 <= digitOf a * 10 + digitOf b <= 23).
    { apply orb_true_iff in Hok. destruct Hok as [Hok|Hok];
        apply andb_true_iff in Hok; destruct Hok as [Ha Hb].
      - digit_facts Ha. unfold isDigit in Hb. digit_facts Hb.
        repeat split; try assumption; lia.
      - apply Ascii.eqb_eq in Ha. subst a. digit_facts Hb.
        repeat split; try assumption; try reflexivity;
          change (digitOf "2"%char) with 2; lia. }
    destruct Hhour as (Hda & Hca & Hdb & Hcb & Hh).
    unfold workingHoursOf. cbn [splitOn].
    rewrite ?Ascii.eqb_refl, Hca, Hcb, Hcolon, Hcolon0.
    cbn [map numberOf digitsValue]. rewrite Hda, Hdb, Hdigit, Hdigit0.
    eexists. eexists. split; [reflexivity|].
    unfold minutesOf. cbn [fst snd]. lia.
Qed.

Lemma acceptsTime_inside_day_witness :
  exists hour minute,
    workingHoursOf "09:00"%string = Some (hour, minute) /\
    0 <= hour <= 23 /\ 0 <= minute <= 59 /\
    0 <= minutesOf (hour, minute) < 1440.
Proof.
  apply (acceptsTime_inside_day "09:00"%string). reflexivity.
Defined.

(** ** Tasks do not overlap *)








(* ================================================================== *)
(** * The scheduler in the time zone of the host *)

(** ** The slots of a day, for every length of the working hours *)



(** ** A steady offset *)

Lemma localTime_steady zone c lo hi t :
  steadyOn zone c lo hi -> lo <= t <= hi ->
  Zoned.localTime zone t = t + c.
Proof.
  intros Hsteady Ht. unfold Zoned.localTime.
  now rewrite (proj1 (Hsteady t Ht)).
Qed.

Lemma utc_steady zone c lo hi l :
  steadyOn zone c lo hi -> lo <= l - c <= hi ->
  Zoned.utc zone l = l - c.
Proof.
  intros Hsteady Hl. unfold Zoned.utc.
  pose proof (proj2 (Hsteady (l - c) Hl)) as Hoff.
  replace (l - c + c) with l in Hoff by lia. now rewrite Hoff.
Qed.

(** With enough fuel the slots of the loop do not depend on it. *)
Lemma slotLoop_enough fuel fuel' slotStart dayEnd :
  dayEnd - slotStart <= Z.of_nat fuel * slotMs ->
  dayEnd - slotStart <= Z.of_nat fuel' * slotMs ->
  slotLoop fuel slotStart dayEnd = slotLoop fuel' slotStart dayEnd.
Proof.
  intros Hf Hf'. destruct (Nat.le_ge_cases fuel fuel') as [Hle|Hle].
  - replace fuel' with (fuel + (fuel' - fuel))%nat by lia.
    symmetry. now apply slotLoop_fuel_enough.
  - replace fuel with (fuel' + (fuel - fuel'))%nat by lia.
    now apply slotLoop_fuel_enough.
Qed.

Section Steady.

Variable zone : Zoned.TimeZone.
Variables c lo hi : Z.
Hypothesis steady : steadyOn zone c lo hi.

(** Where the offset is steady, the loop of the host is the loop on local
    times, and it ends. *)
Lemma slotLoop_steady fuel : forall slotStart dayEnd,
  lo <= slotStart - c -> dayEnd - c + slotMs <= hi ->
  dayEnd - slotStart <= Z.of_nat fuel * slotMs ->
  Zoned.slotLoop zone fuel (slotStart - c) (dayEnd - c)
  = Some (map (shiftSlot (- c)) (slotLoop fuel slotStart dayEnd)).
Proof.
  assert (Hw : 0 < slotMs) by reflexivity.
  induction fuel as [|fuel IH]; intros a e Hlo Hhi Hfuel.
  - cbn [Zoned.slotLoop slotLoop map].
    destruct (Z.ltb_spec (a - c) (e - c)); [lia|reflexivity].
  - cbn [Zoned.slotLoop slotLoop].
    destruct (Z.ltb_spec (a - c) (e - c)) as [Hlt|Hge];
      destruct (Z.ltb_spec a e); try lia; [|reflexivity].
    assert (Hend : Zoned.addMinutes zone (a - c) slotDuration
                   = a + slotMs - c).
    { unfold Zoned.addMinutes.
      rewrite (localTime_steady zone c lo hi) by (auto; lia).
      replace (a - c + c) with a by lia.
      change (JsDate.addMinutes a slotDuration) with (a + slotMs).
      apply (utc_steady zone c lo hi); [exact steady|lia]. }
    rewrite Hend.
    change (JsDate.addMinutes a slotDuration) with (a + slotMs).
    rewrite (IH (a + slotMs) e) by lia.
    rewrite map_app. f_equal. f_equal.
    destruct (Z.leb_spec (a + slotMs - c) (e - c));
      destruct (Z.leb_spec (a + slotMs) e); try lia; [|reflexivity].
    reflexivity.
Qed.

Variable settings : SchedulerSettings.

Hypothesis hours_in_day :
  0 <= minutesOf (workingHoursStart settings) <= 1440 /\
  0 <= minutesOf (workingHoursEnd settings) <= 1440.

Lemma setHours_steady q hm :
  lo <= q * JsDate.msPerDay - c <= hi ->
  lo <= q * JsDate.msPerDay + minutesOf hm * JsDate.msPerMinute - c
  <= hi ->
  Zoned.setHours zone (q * JsDate.msPerDay - c) (fst hm) (snd hm)
  = q * JsDate.msPerDay + minutesOf hm * JsDate.msPerMinute - c.
Proof.
  intros Hq Hin. unfold Zoned.setHours.
  rewrite (localTime_steady zone c lo hi) by auto.
  replace (q * JsDate.msPerDay - c + c) with (q * JsDate.msPerDay) by lia.
  rewrite setHours_midnight, <- surjective_pairing.
  apply (utc_steady zone c lo hi); auto.
Qed.

Lemma daySlots_steady fuel q :
  lo <= q * JsDate.msPerDay - c ->
  q * JsDate.msPerDay - c + JsDate.msPerDay + slotMs <= hi ->
  (48 <= fuel)%nat ->
  Zoned.daySlots zone fuel settings (q * JsDate.msPerDay - c)
  = Some (map (shiftSlot (- c)) (daySlots settings (q * JsDate.msPerDay))).
Proof.
  intros Hlo Hhi Hfuel.
  destruct hours_in_day as [Hopen Hclose].
  assert (Hday : JsDate.msPerDay = 1440 * JsDate.msPerMinute)
    by reflexivity.
  assert (Hw : slotMs = 30 * JsDate.msPerMinute) by reflexivity.
  assert (Hm : 0 < JsDate.msPerMinute) by reflexivity.
  unfold Zoned.daySlots, daySlots, Zoned.getDay.
  rewrite (localTime_steady zone c lo hi) by (auto; lia).
  replace (q * JsDate.msPerDay - c + c) with (q * JsDate.msPerDay) by lia.
  destruct (includes _ _); [|reflexivity].
  pose proof (setHours_steady q (workingHoursStart settings)) as Hs.
  pose proof (setHours_steady q (workingHoursEnd settings)) as He.
  pose proof (setHours_midnight q (fst (workingHoursStart settings))
                (snd (workingHoursStart settings))) as Hs'.
  pose proof (setHours_midnight q (fst (workingHoursEnd settings))
                (snd (workingHoursEnd settings))) as He'.
  rewrite <- surjective_pairing in Hs', He'.
  destruct (workingHoursStart settings) as [sh sm].
  destruct (workingHoursEnd settings) as [eh em].
  cbn [fst snd] in Hs, He, Hs', He'.
  assert (Ha : 0 <= minutesOf (sh, sm) * JsDate.msPerMinute
               <= JsDate.msPerDay) by (rewrite Hday; nia).
  assert (Hb : 0 <= minutesOf (eh, em) * JsDate.msPerMinute
               <= JsDate.msPerDay) by (rewrite Hday; nia).
  assert (Hd : 0 < JsDate.msPerDay) by reflexivity.
  assert (Hw' : 0 < slotMs) by reflexivity.
  assert (Hspan : JsDate.msPerDay <= Z.of_nat fuel * slotMs).
  { change JsDate.msPerDay with (48 * slotMs). nia. }
  rewrite Hs, He by lia. rewrite Hs', He'.
  rewrite slotLoop_steady; [| lia | lia | lia].
  f_equal. f_equal. apply slotLoop_enough; [lia|apply slotLoopFuel_enough].
Qed.

Lemma dayLoop_steady fuel days : forall q,
  lo <= q * JsDate.msPerDay - c ->
  (q + Z.of_nat days) * JsDate.msPerDay - c + slotMs <= hi ->
  (48 <= fuel)%nat ->
  Zoned.dayLoop zone fuel settings days (q * JsDate.msPerDay - c)
  = Some (map (shiftSlot (- c))
            (dayLoop settings days (q * JsDate.msPerDay))).
Proof.
  assert (Hd : 0 < JsDate.msPerDay) by reflexivity.
  assert (Hw : 0 < slotMs) by reflexivity.
  induction days as [|days IH]; intros q Hlo Hhi Hfuel; [reflexivity|].
  cbn [Zoned.dayLoop dayLoop].
  rewrite daySlots_steady by (auto; nia).
  assert (Hnext : Zoned.addDays zone (q * JsDate.msPerDay - c) 1
                  = (q + 1) * JsDate.msPerDay - c).
  { unfold Zoned.addDays.
    rewrite (localTime_steady zone c lo hi) by (auto; nia).
    unfold JsDate.addDays.
    rewrite (utc_steady zone c lo hi) by (auto; nia). lia. }
  rewrite Hnext.
  replace (JsDate.addDays (q * JsDate.msPerDay) 1)
    with ((q + 1) * JsDate.msPerDay) by (unfold JsDate.addDays; lia).
  rewrite (IH (q + 1)) by (auto; nia).
  now rewrite map_app.
Qed.

End Steady.

(** On a horizon over which the offset of the zone is steady, and with
    working hours inside the day, [generateTimeSlots] returns, and its
    slots are those of the grid on local times. *)
Lemma generateTimeSlots_steady zone c settings startDate daysToSchedule fuel :
  let midnight := JsDate.startOfDay (startDate + c) - c in
  steadyOn zone c midnight
    (midnight + daysToSchedule * JsDate.msPerDay + slotMs) ->
  0 <= minutesOf (workingHoursStart settings) <= 1440 ->
  0 <= minutesOf (workingHoursEnd settings) <= 1440 ->
  (48 <= fuel)%nat ->
  Zoned.generateTimeSlots zone fuel settings startDate daysToSchedule
  = Some (map (shiftSlot (- c))
            (generateTimeSlots settings (startDate + c) daysToSchedule)).
Proof.
  intros midnight Hsteady Hopen Hclose Hfuel.
  unfold Zoned.generateTimeSlots, generateTimeSlots.
  destruct (Z.to_nat daysToSchedule) as [|days] eqn:Hdays; [reflexivity|].
  assert (Hd : JsDate.msPerDay = 86400000) by reflexivity.
  assert (Hw : 0 < slotMs) by reflexivity.
  set (q := (startDate + c) / JsDate.msPerDay).
  assert (Hmid : midnight = q * JsDate.msPerDay - c) by reflexivity.
  pose proof (Z.div_mod (startDate + c) JsDate.msPerDay ltac:(lia))
    as Hdiv.
  pose proof (Z.mod_pos_bound (startDate + c) JsDate.msPerDay ltac:(lia))
    as Hmod.
  fold q in Hdiv.
  assert (Hstart : JsDate.setHours (startDate + c) 0 0
                   = q * JsDate.msPerDay).
  { unfold JsDate.setHours, JsDate.startOfDay. fold q. lia. }
  assert (Hcur : Zoned.setHours zone startDate 0 0
                 = q * JsDate.msPerDay - c).
  { unfold Zoned.setHours.
    rewrite (localTime_steady zone c _ _ startDate Hsteady) by lia.
    rewrite Hstart.
    apply (utc_steady zone c _ _ _ Hsteady). lia. }
  rewrite Hcur, Hstart.
  apply (dayLoop_steady zone c midnight
           (midnight + daysToSchedule * JsDate.msPerDay + slotMs));
    auto; lia.
Qed.

Lemma Zoned_slotLoop_S zone fuel slotStart dayEnd :
  Zoned.slotLoop zone (S fuel) slotStart dayEnd
  = if slotStart <? dayEnd then
      let slotEnd := Zoned.addMinutes zone slotStart slotDuration in
      match Zoned.slotLoop zone fuel slotEnd dayEnd with
      | Some rest =>
          Some ((if slotEnd <=? dayEnd
                 then [mkSlot slotStart slotEnd None] else []) ++ rest)
      | None => None
      end
    else Some [].
Proof. reflexivity. Qed.

(** More fuel does not change what the loops return. *)
Lemma Zoned_slotLoop_more zone fuel : forall slotStart dayEnd grid,
  Zoned.slotLoop zone fuel slotStart dayEnd = Some grid ->
  Zoned.slotLoop zone (S fuel) slotStart dayEnd = Some grid.
Proof.
  induction fuel as [|fuel IH]; intros a e grid Hrun;
    rewrite Zoned_slotLoop_S.
  - cbn [Zoned.slotLoop] in Hrun.
    destruct (a <? e); [discriminate|exact Hrun].
  - rewrite Zoned_slotLoop_S in Hrun. cbv zeta in Hrun |- *.
    destruct (a <? e); [|exact Hrun].
    destruct (Zoned.slotLoop zone fuel (Zoned.addMinutes zone a slotDuration)
                e) as [rest|] eqn:Hrest; [|discriminate].
    now rewrite (IH _ _ _ Hrest).
Qed.

Lemma Zoned_dayLoop_more zone fuel settings days : forall currentDate grid,
  Zoned.dayLoop zone fuel settings days currentDate = Some grid ->
  Zoned.dayLoop zone (S fuel) settings days currentDate = Some grid.
Proof.
  induction days as [|days IH]; intros cur grid Hrun; [exact Hrun|].
  cbn [Zoned.dayLoop] in Hrun |- *.
  destruct (Zoned.daySlots zone fuel settings cur) as [today|] eqn:Hday;
    [|discriminate].
  destruct (Zoned.dayLoop zone fuel settings days (Zoned.addDays zone cur 1))
    as [rest|] eqn:Hrest; [|discriminate].
  rewrite (IH _ _ Hrest).
  assert (Hday' : Zoned.daySlots zone (S fuel) settings cur = Some today).
  { unfold Zoned.daySlots in Hday |- *.
    destruct (includes _ _); [|exact Hday].
    destruct (workingHoursStart settings), (workingHoursEnd settings).
    now apply Zoned_slotLoop_more. }
  now rewrite Hday'.
Qed.

(** [generateTimeSlots] returns one grid at most. *)
Lemma returnsGrid_unique zone settings startDate daysToSchedule grid grid' :
  returnsGrid zone settings startDate daysToSchedule grid ->
  returnsGrid zone settings startDate daysToSchedule grid' ->
  grid = grid'.
Proof.
  assert (Hmore : forall extra fuel g,
            Zoned.generateTimeSlots zone fuel settings startDate
              daysToSchedule = Some g ->
            Zoned.generateTimeSlots zone (extra + fuel) settings startDate
              daysToSchedule = Some g).
  { induction extra as [|extra IH]; intros fuel g Hg; [exact Hg|].
    apply Zoned_dayLoop_more. now apply IH. }
  intros [fuel Hg] [fuel' Hg'].
  apply (Hmore fuel') in Hg. apply (Hmore fuel) in Hg'.
  rewrite Nat.add_comm in Hg'. congruence.
Qed.


(** Before its changes of 2024 the offset of New York is steady. *)
Lemma newYork_steady_in_winter lo hi :
  hi < 19792 * JsDate.msPerDay ->
  steadyOn Example.newYork (-5 * JsDate.msPerHour) lo hi.
Proof.
  intros Hhi t Ht. unfold Example.newYork.
  cbn [Zoned.offsetAt Zoned.offsetOfLocal].
  unfold JsDate.msPerDay, JsDate.msPerHour in *.
  destruct (Z.leb_spec (19792 * 86400000 + 7 * 3600000) t); [lia|].
  destruct (Z.leb_spec (19792 * 86400000 + 3 * 3600000) (t + -5 * 3600000));
    [lia|].
  split; reflexivity.
Qed.

(** ** The grid *)




(** ** The width of a slot *)

(** Every slot the loop emits ends where [setMinutes] puts its start. *)
Lemma Zoned_slotLoop_sound zone fuel : forall slotStart dayEnd grid s,
  Zoned.slotLoop zone fuel slotStart dayEnd = Some grid ->
  In s grid ->
  endTime s = Zoned.addMinutes zone (startTime s) slotDuration.
Proof.
  induction fuel as [|fuel IH]; intros a e grid s Hrun Hin.
  - cbn [Zoned.slotLoop] in Hrun.
    destruct (a <? e); [discriminate|].
    inversion Hrun; subst grid. contradiction.
  - rewrite Zoned_slotLoop_S in Hrun. cbv zeta in Hrun.
    destruct (a <? e).
    + destruct (Zoned.slotLoop zone fuel
                  (Zoned.addMinutes zone a slotDuration) e)
        as [rest|] eqn:Hrest; [|discriminate].
      inversion Hrun; subst grid.
      apply in_app_or in Hin. destruct Hin as [Hin|Hin].
      * destruct (Zoned.addMinutes zone a slotDuration <=? e);
          [|contradiction].
        destruct Hin as [<-|[]]. reflexivity.
      * exact (IH _ _ _ s Hrest Hin).
    + inversion Hrun; subst grid. contradiction.
Qed.

Lemma Zoned_dayLoop_sound zone fuel settings days : forall currentDate grid s,
  Zoned.dayLoop zone fuel settings days currentDate = Some grid ->
  In s grid ->
  endTime s = Zoned.addMinutes zone (startTime s) slotDuration.
Proof.
  induction days as [|days IH]; intros cur grid s Hrun Hin;
    cbn [Zoned.dayLoop] in Hrun.
  - inversion Hrun; subst grid. contradiction.
  - destruct (Zoned.daySlots zone fuel settings cur) as [today|] eqn:Hday;
      [|discriminate].
    destruct (Zoned.dayLoop zone fuel settings days
                (Zoned.addDays zone cur 1)) as [rest|] eqn:Hrest;
      [|discriminate].
    inversion Hrun; subst grid.
    apply in_app_or in Hin. destruct Hin as [Hin|Hin].
    + unfold Zoned.daySlots in Hday.
      destruct (includes _ _).
      * destruct (workingHoursStart settings), (workingHoursEnd settings).
        exact (Zoned_slotLoop_sound _ _ _ _ _ s Hday Hin).
      * inversion Hday; subst today. contradiction.
    + exact (IH _ _ s Hrest Hin).
Qed.

(** The finder finds a run that is there, and only then anything. *)
Lemma findConsecutiveSlots_finds slots n :
  0 < n ->
  hasRun n (filter isFree slots) ->
  Z.of_nat (length (findConsecutiveSlots slots n)) = n.
Proof.
  intros Hn Hrun.
  destruct (findConsecutiveSlots_spec slots n Hn)
    as [Hnil|(Hlen & _)]; [|exact Hlen].
  exfalso.
  apply (findLoop_complete slots [] None n Hn); [|exact Hrun|exact Hnil].
  repeat split; simpl; lia.
Qed.

Lemma findConsecutiveSlots_misses slots n :
  0 < n ->
  ~ hasRun n (filter isFree slots) ->
  findConsecutiveSlots slots n = [].
Proof.
  intros Hn Hnone.
  destruct (findConsecutiveSlots_spec slots n Hn)
    as [Hnil|(Hlen & Hch & before & after & Hcut)]; [exact Hnil|].
  exfalso. apply Hnone.
  exists before, (findConsecutiveSlots slots n), after. auto.
Qed.

Lemma filter_isFree_freeBy d slots :
  filter isFree (freeBy d slots) = freeBy d slots.
Proof.
  apply filter_all. intros r Hr. unfold freeBy in Hr.
  apply filter_In in Hr. destruct Hr as [_ Hr].
  apply andb_true_iff in Hr. exact (proj1 Hr).
Qed.

(** [scheduleTaskAnywhere] asks the finder for ceil(timeEstimate / 30)
    slots out of the grid. *)
Lemma scheduleTaskAnywhere_asks t st tk :
  nth_error (sortedTasks st) t = Some tk ->
  0 < timeEstimate tk ->
  asksFor (ceilDiv (timeEstimate tk) 30)
    (filter isFree (refsOf (availableSlots st)))
    (scheduleTaskAnywhere t st) t st.
Proof.
  intros Htk Hte.
  assert (Hn : 0 < ceilDiv (timeEstimate tk) 30)
    by (pose proof (ceilDiv_spec (timeEstimate tk)); lia).
  pose proof (scheduleTaskAnywhere_outcome t st) as Hout.
  unfold scheduleTaskAnywhere in Hout |- *. rewrite Htk in Hout |- *.
  cbv zeta in Hout |- *.
  set (n := ceilDiv (timeEstimate tk) 30) in *.
  set (found := findConsecutiveSlots (refsOf (availableSlots st)) n) in *.
  split.
  - intros Hrun.
    pose proof (findConsecutiveSlots_finds _ n Hn Hrun) as Hlen.
    fold found in Hlen.
    destruct (Z.geb_spec (Z.of_nat (length found)) n); [|lia].
    destruct (nonempty_head found ltac:(lia)) as [first Hfirst].
    rewrite (assignTaskToSlots_head t found st first Hfirst) in Hout |- *.
    cbn [bind] in Hout |- *. destruct Hout as (found' & Hplaced).
    eexists. split; [reflexivity|].
    rewrite (placedOn_occupied t found' st _ Hplaced t), Nat.eqb_refl.
    assert (Hsame : length found' = length found).
    { destruct Hplaced as (tk' & _ & Htk' & _ & Hlen' & _).
      rewrite Htk in Htk'. inversion Htk'; subst tk'. fold n in Hlen'.
      lia. }
    rewrite Nat2Z.inj_add, Hsame. lia.
  - intros Hnone.
    pose proof (findConsecutiveSlots_misses _ n Hn Hnone) as Hnil.
    fold found in Hnil. rewrite Hnil. cbn [length].
    destruct (Z.geb_spec (Z.of_nat 0) n); [lia|reflexivity].
Qed.

(** [scheduleTaskWithDeadline] asks the finder for ceil(timeEstimate / 30)
    slots out of the free slots that are over by the deadline. *)
Lemma scheduleTaskWithDeadline_asks t st tk d :
  nth_error (sortedTasks st) t = Some tk ->
  0 < timeEstimate tk ->
  deadline tk = Some d ->
  asksFor (ceilDiv (timeEstimate tk) 30)
    (freeBy d (availableSlots st))
    (scheduleTaskWithDeadline t st) t st.
Proof.
  intros Htk Hte Hd.
  assert (Hn : 0 < ceilDiv (timeEstimate tk) 30)
    by (pose proof (ceilDiv_spec (timeEstimate tk)); lia).
  pose proof (scheduleTaskWithDeadline_outcome t st) as Hout.
  unfold scheduleTaskWithDeadline in Hout |- *.
  rewrite Htk, Hd in Hout |- *. cbv zeta in Hout |- *.
  fold (freeBy d (availableSlots st)) in Hout |- *.
  set (view := freeBy d (availableSlots st)) in *.
  set (n := ceilDiv (timeEstimate tk) 30) in *.
  set (found := findConsecutiveSlots view n) in *.
  split.
  - intros Hrun.
    assert (Hview : (length view =? 0)%nat = false).
    { apply Nat.eqb_neq. intros Hzero.
      destruct Hrun as (before & run & after & Heq & _ & Hlen).
      apply (f_equal (@length _)) in Heq.
      rewrite !length_app in Heq. lia. }
    rewrite Hview in Hout |- *.
    assert (Hlen : Z.of_nat (length found) = n).
    { apply findConsecutiveSlots_finds; [exact Hn|].
      unfold view. now rewrite filter_isFree_freeBy. }
    destruct (Z.geb_spec (Z.of_nat (length found)) n); [|lia].
    destruct (nonempty_head found ltac:(lia)) as [first Hfirst].
    rewrite (assignTaskToSlots_head t found st first Hfirst) in Hout |- *.
    cbn [bind] in Hout |- *.
    destruct Hout as (found' & tk' & d' & Hplaced & _).
    eexists. split; [reflexivity|].
    rewrite (placedOn_occupied t found' st _ Hplaced t), Nat.eqb_refl.
    assert (Hsame : length found' = length found).
    { destruct Hplaced as (tk1 & _ & Htk1 & _ & Hlen' & _).
      rewrite Htk in Htk1. inversion Htk1; subst tk1. fold n in Hlen'.
      lia. }
    rewrite Nat2Z.inj_add, Hsame. lia.
  - intros Hnone.
    destruct (length view =? 0)%nat; [reflexivity|].
    assert (Hnil : found = []).
    { apply findConsecutiveSlots_misses; [exact Hn|].
      unfold view. now rewrite filter_isFree_freeBy. }
    rewrite Hnil. cbn [length].
    destruct (Z.geb_spec (Z.of_nat 0) n); [lia|reflexivity].
Qed.

(** C9, as amended.  Whatever the settings and the time zone, every slot
    of the grid ends where [setMinutes] puts its start plus 30 minutes of
    local time: 30 minutes after it starts, and by the change of the
    offset more or less when the offset of the host's zone changes across
    the slot.  Both placement helpers ask the finder for the number [n] of
    slots with 30 (n - 1) < timeEstimate <= 30 n, that is
    ceil(timeEstimate / 30): with a run of [n] free slots before them
    (over by the deadline, for [scheduleTaskWithDeadline]) they give the
    task [n] slots, and without one they place nothing. *)
Theorem slot_width_is_thirty_minutes :
  (forall zone settings startDate daysToSchedule grid,
     returnsGrid zone settings startDate daysToSchedule grid ->
     Forall (fun s =>
               endTime s = Zoned.addMinutes zone (startTime s) 30 /\
               endTime s - startTime s
               = 30 * JsDate.msPerMinute
                 + (Zoned.offsetAt zone (startTime s)
                    - Zoned.offsetOfLocal zone
                        (Zoned.localTime zone (startTime s)
                         + 30 * JsDate.msPerMinute)))
            grid) /\
  (forall t st tk,
     nth_error (sortedTasks st) t = Some tk ->
     0 < timeEstimate tk ->
     exists n,
       30 * (n - 1) < timeEstimate tk <= 30 * n /\
       asksFor n (filter isFree (refsOf (availableSlots st)))
         (scheduleTaskAnywhere t st) t st /\
       forall d,
         deadline tk = Some d ->
         asksFor n (freeBy d (availableSlots st))
           (scheduleTaskWithDeadline t st) t st).
Proof.
  split.
  - intros zone settings startDate days grid [fuel Hgrid].
    rewrite Forall_forall. intros s Hin.
    unfold Zoned.generateTimeSlots in Hgrid.
    pose proof (Zoned_dayLoop_sound _ _ _ _ _ _ s Hgrid Hin) as Hend.
    change slotDuration with 30 in Hend.
    split; [exact Hend|]. rewrite Hend.
    unfold Zoned.addMinutes, Zoned.utc, Zoned.localTime, JsDate.addMinutes.
    lia.
  - intros t st tk Htk Hte.
    exists (ceilDiv (timeEstimate tk) 30).
    split; [apply ceilDiv_spec|]. split.
    + now apply scheduleTaskAnywhere_asks.
    + intros d Hd. now apply scheduleTaskWithDeadline_asks.
Qed.

(** For the task of [Example.winterRun] both helpers find the two slots
    from 09:00 on, in a grid that New York's winter leaves 30 minutes
    wide. *)
Lemma slot_width_is_thirty_minutes_witness :
  returnsGrid Example.newYork Example.settings
    (Example.monday + 5 * JsDate.msPerHour) 1 Example.winterGrid /\
  Forall (fun s => endTime s - startTime s = 30 * JsDate.msPerMinute)
    Example.winterGrid /\
  (exists st',
     scheduleTaskAnywhere 0%nat Example.winterRun = Ok (true, st') /\
     occupied 0%nat (availableSlots st') = 2%nat) /\
  (exists st',
     scheduleTaskWithDeadline 0%nat Example.winterRun = Ok (true, st') /\
     occupied 0%nat (availableSlots st') = 2%nat).
Proof.
  assert (Hgrid : returnsGrid Example.newYork Example.settings
                    (Example.monday + 5 * JsDate.msPerHour) 1
                    Example.winterGrid)
    by (exists 48%nat; vm_compute; reflexivity).
  destruct slot_width_is_thirty_minutes as [Hwidth Hhelpers].
  split; [exact Hgrid|]. split.
  - pose proof (Hwidth _ _ _ _ _ Hgrid) as Hformula.
    rewrite Forall_forall in Hformula |- *. intros s Hin.
    destruct (Hformula s Hin) as [_ ->].
    unfold Example.winterGrid in Hin. cbn [In] in Hin.
    repeat (destruct Hin as [<-|Hin]; [vm_compute; reflexivity|]).
    contradiction.
  - destruct (Hhelpers 0%nat Example.winterRun
                (mkTask 1 60
                   (Some (Example.monday + 17 * JsDate.msPerHour)) None)
                eq_refl eq_refl)
      as (n & Hn & Hany & Hdue).
    assert (n = 2) by (cbn [timeEstimate] in Hn; lia). subst n.
    specialize (Hdue _ eq_refl).
    assert (Hrun : forall view,
              firstn 2 view
              = firstn 2 (refsOf Example.winterGrid) ->
              hasRun 2 view).
    { intros view Hview. exists [], (firstn 2 view), (skipn 2 view).
      split; [symmetry; apply firstn_skipn|].
      rewrite Hview. split; [|reflexivity].
      vm_compute. split; [reflexivity|exact I]. }
    split.
    + destruct (proj1 Hany) as (st' & Hres & Hocc).
      { apply Hrun. vm_compute. reflexivity. }
      exists st'. split; [exact Hres|].
      change (occupied 0%nat (availableSlots Example.winterRun))
        with 0%nat in Hocc.
      lia.
    + destruct (proj1 Hdue) as (st' & Hres & Hocc).
      { apply Hrun. vm_compute. reflexivity. }
      exists st'. split; [exact Hres|].
      change (occupied 0%nat (availableSlots Example.winterRun))
        with 0%nat in Hocc.
      lia.
Defined.

(** C9, as the specification has it, fails on the day the clocks of New
    York go back: with working hours 00:00-04:00 on Sunday 2024-11-03 the
    slot that starts at 01:30 ends at 02:00, ninety minutes later. *)
Lemma slot_width_counterexample :
  exists grid s,
    returnsGrid Example.newYork Example.nightSettings Example.fallBack 1
      grid /\
    nth_error grid 3 = Some s /\
    endTime s - startTime s = 90 * JsDate.msPerMinute.
Proof.
  eexists. eexists. split; [exists 8%nat; vm_compute; reflexivity|].
  split; reflexivity.
Qed.

(** ** An empty grid *)

(** X2.  On a horizon over which the offset of the host's time zone does
    not change, and with working hours inside the day, the grid is empty
    exactly when the working hours are shorter than one slot of 30 minutes
    or no day of the horizon falls on a working day; a horizon of no days
    and settings without working days are cases of it. *)
Theorem generateTimeSlots_empty_iff :
  forall zone c settings startDate daysToSchedule,
    let opening := minutesOf (workingHoursStart settings) in
    let closing := minutesOf (workingHoursEnd settings) in
    let midnight := JsDate.startOfDay (startDate + c) - c in
    steadyOn zone c midnight
      (midnight + daysToSchedule * JsDate.msPerDay + slotMs) ->
    0 <= opening <= 1440 -> 0 <= closing <= 1440 ->
    exists grid,
      returnsGrid zone settings startDate daysToSchedule grid /\
      (grid = [] <->
       closing < opening + slotDuration \/
       forall d, 0 <= d < daysToSchedule ->
         includes (workingDays settings)
           (Zoned.getDay zone (midnight + d * JsDate.msPerDay))
         = false).
Proof.
  intros zone c settings startDate days opening closing midnight
    Hsteady Hopen Hclose.
  exists (map (shiftSlot (- c))
            (generateTimeSlots settings (startDate + c) days)).
  split; [exists 48%nat; now apply generateTimeSlots_steady|].
  assert (Hweekday : forall d, 0 <= d < days ->
            Zoned.getDay zone (midnight + d * JsDate.msPerDay)
            = JsDate.getDay
                (JsDate.addDays (JsDate.startOfDay (startDate + c)) d)).
  { intros d Hd. unfold Zoned.getDay.
    assert (HD : 0 < JsDate.msPerDay) by reflexivity.
    assert (Hw : 0 < slotMs) by reflexivity.
    rewrite (localTime_steady zone c _ _ _ Hsteady) by nia.
    f_equal. unfold midnight, JsDate.addDays. lia. }
  split.
  - intros Hnil. apply map_eq_nil in Hnil.
    apply generateTimeSlots_nil_iff in Hnil.
    destruct Hnil as [Hshort|Hnone]; [now left|right].
    intros d Hd. rewrite Hweekday by exact Hd. now apply Hnone.
  - intros Hcase.
    assert (Hnil : generateTimeSlots settings (startDate + c) days = []).
    { apply generateTimeSlots_nil_iff.
      destruct Hcase as [Hshort|Hnone]; [now left|right].
      intros d Hd. rewrite <- Hweekday by exact Hd. now apply Hnone. }
    now rewrite Hnil.
Qed.

(** A weekend in New York's winter, with working days from Monday to
    Friday. *)
Lemma generateTimeSlots_empty_iff_witness :
  exists grid,
    returnsGrid Example.newYork Example.settings
      (Example.monday + 5 * JsDate.msPerDay + 5 * JsDate.msPerHour) 2
      grid /\
    (grid = [] <->
     minutesOf (17, 0) < minutesOf (9, 0) + slotDuration \/
     forall d, 0 <= d < 2 ->
       includes [1; 2; 3; 4; 5]
         (Zoned.getDay Example.newYork
            (Example.monday + 5 * JsDate.msPerDay + 5 * JsDate.msPerHour
             + d * JsDate.msPerDay))
       = false).
Proof.
  apply (generateTimeSlots_empty_iff Example.newYork
           (-5 * JsDate.msPerHour) Example.settings
           (Example.monday + 5 * JsDate.msPerDay + 5 * JsDate.msPerHour)
           2).
  - apply newYork_steady_in_winter. reflexivity.
  - split; discriminate.
  - split; discriminate.
Defined.

(** ** Deadline flags *)

(** Where the offset at [now] is the one with which the local time 48
    hours on is read back, [twoDaysFromNow] is 48 hours after [now]. *)
Lemma addHours_steady zone now c k :
  Zoned.offsetAt zone now = c ->
  Zoned.offsetOfLocal zone (now + c + k * JsDate.msPerHour) = c ->
  Zoned.addHours zone now k = now + k * JsDate.msPerHour.
Proof.
  intros Hat Hback. unfold Zoned.addHours, Zoned.utc, Zoned.localTime.
  rewrite Hat, Hback. lia.
Qed.

(** X8.  What the view shows and what the ranker does with a deadline.  In
    every time zone a task is never overdue and due soon together, and an
    overdue task is urgent for the ranker.  When the offset of the host's
    zone is the same 48 hours from now as now, a task due soon is urgent
    unless its deadline is exactly 48 hours away, and an urgent task is
    overdue, due soon, or due at this very moment. *)
Theorem deadline_flags :
  forall zone now tk,
    (isOverdue now tk = true -> Zoned.isDueSoon zone now tk = false) /\
    (isOverdue now tk = true -> isUrgent now tk = true) /\
    (forall c,
       Zoned.offsetAt zone now = c ->
       Zoned.offsetOfLocal zone (now + c + 48 * JsDate.msPerHour) = c ->
       (Zoned.isDueSoon zone now tk = true ->
          isUrgent now tk = true \/
          deadline tk = Some (now + 48 * JsDate.msPerHour)) /\
       (isUrgent now tk = true ->
          isOverdue now tk = true \/ Zoned.isDueSoon zone now tk = true \/
          deadline tk = Some now)).
Proof.
  intros zone now tk.
  unfold isOverdue, Zoned.isDueSoon, isUrgent, urgentThreshold.
  destruct (deadline tk) as [d|];
    [|repeat split; intros; discriminate].
  cbv zeta. split; [|split].
  - intros Hover. apply Z.ltb_lt in Hover.
    destruct (Z.ltb_spec now d); [lia|reflexivity].
  - intros Hover. apply Z.ltb_lt in Hover. apply Z.ltb_lt. lia.
  - intros c Hat Hback.
    rewrite (addHours_steady zone now c 48 Hat Hback).
    unfold JsDate.msPerHour.
    destruct (Z.ltb_spec d now), (Z.ltb_spec now d),
      (Z.leb_spec d (now + 48 * 3600000)),
      (Z.ltb_spec (d - now) (48 * 60 * 60 * 1000));
      cbn [andb]; split; intros; try discriminate; try lia; auto;
      first [ right; f_equal; lia | right; right; f_equal; lia ].
Qed.

(** In New York on 2024-01-01 at midnight, for the task due at noon. *)
Lemma deadline_flags_witness :
  Zoned.isDueSoon Example.newYork (Example.monday + 5 * JsDate.msPerHour)
    (mkTask 1 60 (Some (Example.monday + 17 * JsDate.msPerHour)) None)
  = true /\
  (isUrgent (Example.monday + 5 * JsDate.msPerHour)
     (mkTask 1 60 (Some (Example.monday + 17 * JsDate.msPerHour)) None)
   = true \/
   deadline
     (mkTask 1 60 (Some (Example.monday + 17 * JsDate.msPerHour)) None)
   = Some (Example.monday + 5 * JsDate.msPerHour
           + 48 * JsDate.msPerHour)).
Proof.
  split; [reflexivity|].
  apply (proj1 (proj2 (proj2 (deadline_flags Example.newYork
                                (Example.monday + 5 * JsDate.msPerHour)
                                (mkTask 1 60
                                   (Some (Example.monday
                                          + 17 * JsDate.msPerHour))
                                   None)))
                  (-5 * JsDate.msPerHour) eq_refl eq_refl)).
  reflexivity.
Defined.


(** Under the same condition [isDueSoon] of the host is the one on local
    time values. *)
Lemma isDueSoon_steady zone now c tk :
  Zoned.offsetAt zone now = c ->
  Zoned.offsetOfLocal zone (now + c + 48 * JsDate.msPerHour) = c ->
  Zoned.isDueSoon zone now tk = isDueSoon now tk.
Proof.
  intros Hat Hback. unfold Zoned.isDueSoon, isDueSoon.
  destruct (deadline tk); [|reflexivity].
  cbv zeta. now rewrite (addHours_steady zone now c 48 Hat Hback).
Qed.

(** Without the condition the two differ.  On Friday 2024-11-01 at 19:30
    in New York a task due on 2024-11-04 at 00:00 UTC is due soon, since
    48 hours of local time end at 19:30 on Sunday, after the clocks have
    gone back; it is 48 hours and a half away, and not urgent. *)
Lemma isDueSoon_across_change :
  Zoned.isDueSoon Example.newYork
    (20028 * JsDate.msPerDay + 23 * JsDate.msPerHour
     + 30 * JsDate.msPerMinute)
    (mkTask 3 30 (Some (20031 * JsDate.msPerDay)) None) = true /\
  isUrgent
    (20028 * JsDate.msPerDay + 23 * JsDate.msPerHour
     + 30 * JsDate.msPerMinute)
    (mkTask 3 30 (Some (20031 * JsDate.msPerDay)) None) = false.
Proof. split; reflexivity. Qed.

(** Nor is the grid of a working day with room for two slots always
    there: the hours 02:00-03:00 of Sunday 2024-03-10 in New York begin and
    end at the same instant. *)
Lemma generateTimeSlots_skipped_hour :
  returnsGrid Example.newYork (mkSettings (2, 0) (3, 0) [0])
    Example.springForward 1 [].
Proof. exists 0%nat. reflexivity. Qed.

(** ** The grid in local time *)

(** X20.  Over a horizon on which the offset of the host's time zone does
    not change, and with working hours inside the day,
    [generateTimeSlots] returns, and its slots are those of the grid on
    local wall-clock times, each moved from local time to its instant. *)
Theorem generateTimeSlots_in_local_time :
  forall zone c settings startDate daysToSchedule,
    let midnight := JsDate.startOfDay (startDate + c) - c in
    steadyOn zone c midnight
      (midnight + daysToSchedule * JsDate.msPerDay + slotMs) ->
    0 <= minutesOf (workingHoursStart settings) <= 1440 ->
    0 <= minutesOf (workingHoursEnd settings) <= 1440 ->
    returnsGrid zone settings startDate daysToSchedule
      (map (shiftSlot (- c))
         (generateTimeSlots settings (startDate + c) daysToSchedule)).
Proof.
  intros zone c settings startDate days midnight Hsteady Hopen Hclose.
  exists 48%nat. now apply generateTimeSlots_steady.
Qed.

Lemma generateTimeSlots_in_local_time_witness :
  returnsGrid Example.newYork Example.settings
    (Example.monday + 5 * JsDate.msPerHour) 7
    (map (shiftSlot (- (-5 * JsDate.msPerHour)))
       (generateTimeSlots Example.settings
          (Example.monday + 5 * JsDate.msPerHour + -5 * JsDate.msPerHour)
          7)).
Proof.
  apply (generateTimeSlots_in_local_time Example.newYork
           (-5 * JsDate.msPerHour) Example.settings
           (Example.monday + 5 * JsDate.msPerHour) 7).
  - apply newYork_steady_in_winter. reflexivity.
  - split; discriminate.
  - split; discriminate.
Defined.
